(** * pixiu: resource discovery, kind resolution and the optimistic stores

    A shallow embedding of the parts of the pixiu code base that resolve
    resource kinds ([resourcesstore.GetGVRs], [resourcesstore.ParseKind]),
    of the gorm-backed tenant and user stores ([tenant.Update],
    [tenant.Get], [tenant.Delete], [user.Update]) and of the per-cluster
    kubeconfig service ([kubeConfigs.Create] ... [kubeConfigs.List]),
    with a model of the watch cache of the design document.

    Go maps are [gmap]s, Go strings are [string]s (byte strings), a Go
    [(value, error)] result is a pair whose second component is an
    [option error] ([None] is Go's [nil] error), int64 arithmetic is on
    [Z] with the wrap-around written out. *)

From Stdlib Require Import ZArith String Ascii List Lia Permutation Bool.
From stdpp Require Import base gmap strings list fin_maps.

Local Open Scope string_scope.
Local Open Scope Z_scope.
Local Open Scope list_scope.

(** ** Go error values *)

Inductive error : Type :=
  | ErrUnknownKind                               (* errors.New("unknown kind") *)
  | ErrGroupDiscoveryFailed (groups : list string) (* discovery.ErrGroupDiscoveryFailed *)
  | ErrParseGroupVersion (gv : string)           (* "unexpected GroupVersion string: %v" *)
  | ErrRecordNotFound                            (* errors.ErrRecordNotFound *)
  | ErrRecordNotUpdate                           (* dberrors.ErrRecordNotUpdate *)
  | clientError                                  (* the package-level clientError *)
  | ErrOther (msg : string).                     (* any other error, by its message *)

#[global] Instance error_eq_dec : EqDecision error.
Proof. solve_decision. Defined.

(** ** Strings: the parts of package [strings] the code uses *)

Module Strings.

(** [unicode.ToLower] / [unicode.ToUpper] on the ASCII range; bytes
    outside [A-Z] / [a-z] are left alone. *)
Definition lower_ascii (c : ascii) : ascii :=
  let n := N_of_ascii c in
  if ((65 <=? n) && (n <=? 90))%N then ascii_of_N (n + 32) else c.

Definition upper_ascii (c : ascii) : ascii :=
  let n := N_of_ascii c in
  if ((97 <=? n) && (n <=? 122))%N then ascii_of_N (n - 32) else c.

Fixpoint ToLower (s : string) : string :=
  match s with
  | EmptyString => EmptyString
  | String c s' => String (lower_ascii c) (ToLower s')
  end.

Fixpoint ToUpper (s : string) : string :=
  match s with
  | EmptyString => EmptyString
  | String c s' => String (upper_ascii c) (ToUpper s')
  end.

(** [strings.Title] on a single word: the first letter is upper-cased. *)
Definition Title (s : string) : string :=
  match s with
  | EmptyString => EmptyString
  | String c s' => String (upper_ascii c) s'
  end.

(** [strings.Count] for a one-byte separator. *)
Fixpoint Count (s : string) (sep : ascii) : nat :=
  match s with
  | EmptyString => O
  | String c s' => (if Ascii.eqb c sep then 1 else 0)%nat + Count s' sep
  end.

(** [i := strings.Index(s, sep); s[:i], s[i+1:]] for a separator that
    occurs in [s]; [None] when it does not (Index returns -1). *)
Fixpoint Cut (s : string) (sep : ascii) : option (string * string) :=
  match s with
  | EmptyString => None
  | String c s' =>
      if Ascii.eqb c sep then Some (EmptyString, s')
      else match Cut s' sep with
           | Some (l, r) => Some (String c l, r)
           | None => None
           end
  end.

End Strings.

(** ** k8s.io/apimachinery: group/version/resource triples *)

Module schema.

Record GroupVersion : Type := mkGV { gvGroup : string; gvVersion : string }.

Record GroupVersionResource : Type :=
  mkGVR { Group : string; Version : string; Resource : string }.

#[global] Instance GroupVersionResource_eq_dec : EqDecision GroupVersionResource.
Proof. solve_decision. Defined.

(** The zero value of the struct, which a missed Go map lookup yields. *)
Definition zeroGVR : GroupVersionResource := mkGVR "" "" "".

(** [schema.ParseGroupVersion]: the empty string and "/" give the empty
    group/version, no slash gives a core version, one slash splits
    group from version, more slashes are an error. *)
Definition ParseGroupVersion (gv : string) : GroupVersion * option error :=
  if (String.length gv =? 0)%nat || String.eqb gv "/" then (mkGV "" "", None)
  else match Strings.Count gv "/" with
       | O => (mkGV "" gv, None)
       | S O => match Strings.Cut gv "/" with
                | Some (g, v) => (mkGV g v, None)
                | None => (mkGV "" "", Some (ErrParseGroupVersion gv))
                end
       | _ => (mkGV "" "", Some (ErrParseGroupVersion gv))
       end.

End schema.

(** ** k8s.io/apimachinery: what a discovery call returns *)

Module metav1.

Record APIResource : Type :=
  mkAPIResource { Name : string; Kind : string; Namespaced : bool }.

Record APIResourceList : Type :=
  mkAPIResourceList { GroupVersion : string; APIResources : list APIResource }.

End metav1.

(** ** A star-free fragment of Go's [regexp]

    The rule tables of the inflection package are regular expressions
    built from literals, character classes, alternation, an optional
    group, the anchors and capture groups.  Only the first capture group
    is ever referred to by a replacement template, so [Cap] marks that
    group and the other parentheses are plain grouping. *)

Module Regexp.

Inductive re : Type :=
  | Chr (c : ascii)
  | Class (negated : bool) (cs : list ascii)   (* [abc] and [^abc] *)
  | Seq (r1 r2 : re)
  | Alt (r1 r2 : re)
  | Opt (r : re)                               (* greedy r? *)
  | Cap (r : re)                               (* capture group 1 *)
  | Bol                                        (* ^ *)
  | Eol.                                       (* $ *)

(** A replacement template is [${1}] (or nothing) followed by a literal. *)
Record template : Type := mkTemplate { useCap : bool; literal : string }.

Definition chr_eq (fold : bool) (a b : ascii) : bool :=
  if fold then Ascii.eqb (Strings.lower_ascii a) (Strings.lower_ascii b)
  else Ascii.eqb a b.

Definition in_class (fold : bool) (cs : list ascii) (a : ascii) : bool :=
  existsb (chr_eq fold a) cs.

(** A match attempt at one position: [pos] is the number of bytes before
    [s] in the whole text, [cap] the text of group 1 so far.  The
    continuation receives the position and text after the piece matched;
    alternatives are tried left to right and the first that lets the
    continuation succeed wins, as in Go's leftmost-first semantics. *)
Fixpoint matchAt {R : Type} (fold : bool) (r : re) (pos : nat) (s : list ascii)
    (cap : list ascii) (k : nat -> list ascii -> list ascii -> option R) : option R :=
  match r with
  | Chr c =>
      match s with
      | a :: s' => if chr_eq fold c a then k (S pos) s' cap else None
      | [] => None
      end
  | Class negated cs =>
      match s with
      | a :: s' => if xorb negated (in_class fold cs a) then k (S pos) s' cap else None
      | [] => None
      end
  | Seq r1 r2 =>
      matchAt fold r1 pos s cap (fun pos' s' cap' => matchAt fold r2 pos' s' cap' k)
  | Alt r1 r2 =>
      match matchAt fold r1 pos s cap k with
      | Some x => Some x
      | None => matchAt fold r2 pos s cap k
      end
  | Opt r1 =>
      match matchAt fold r1 pos s cap k with
      | Some x => Some x
      | None => k pos s cap
      end
  | Cap r1 =>
      matchAt fold r1 pos s cap (fun pos' s' _ => k pos' s' (firstn (pos' - pos) s))
  | Bol => if (pos =? 0)%nat then k pos s cap else None
  | Eol => match s with [] => k pos s cap | _ :: _ => None end
  end.

(** The leftmost match: [(before, group 1, after)]. *)
Fixpoint search (fold : bool) (r : re) (before : list ascii) (s : list ascii)
    : option (list ascii * list ascii * list ascii) :=
  match matchAt fold r (length before) s [] (fun _ rest cap => Some (before, cap, rest)) with
  | Some m => Some m
  | None =>
      match s with
      | [] => None
      | a :: s' => search fold r (before ++ [a]) s'
      end
  end.

Definition MatchString (fold : bool) (r : re) (str : string) : bool :=
  match search fold r [] (list_ascii_of_string str) with
  | Some _ => true
  | None => false
  end.

(** [ReplaceAllString] for patterns that match at most once in a text
    (every pattern of the tables is anchored and matches no empty text). *)
Definition ReplaceAllString (fold : bool) (r : re) (str : string) (t : template) : string :=
  match search fold r [] (list_ascii_of_string str) with
  | Some (before, cap, rest) =>
      string_of_list_ascii before
      +:+ (if useCap t then string_of_list_ascii cap else "")
      +:+ literal t +:+ string_of_list_ascii rest
  | None => str
  end.

(** Builders for the patterns, and [strings.ToUpper] of a pattern. *)
Fixpoint lit_from (c : ascii) (s : string) : re :=
  match s with
  | EmptyString => Chr c
  | String c' s' => Seq (Chr c) (lit_from c' s')
  end.

Definition lit (s : string) : re :=
  match s with
  | EmptyString => Opt Eol      (* the empty pattern; unused by the tables *)
  | String c s' => lit_from c s'
  end.

Fixpoint alts_from (s : string) (l : list string) : re :=
  match l with
  | [] => lit s
  | s' :: l' => Alt (lit s) (alts_from s' l')
  end.

Definition alts (l : list string) : re :=
  match l with
  | [] => Opt Eol
  | s :: l' => alts_from s l'
  end.

Definition cls (s : string) : re := Class false (list_ascii_of_string s).
Definition ncls (s : string) : re := Class true (list_ascii_of_string s).

Fixpoint upper (r : re) : re :=
  match r with
  | Chr c => Chr (Strings.upper_ascii c)
  | Class n cs => Class n (map Strings.upper_ascii cs)
  | Seq r1 r2 => Seq (upper r1) (upper r2)
  | Alt r1 r2 => Alt (upper r1) (upper r2)
  | Opt r1 => Opt (upper r1)
  | Cap r1 => Cap (upper r1)
  | Bol => Bol
  | Eol => Eol
  end.

Definition upper_template (t : template) : template :=
  mkTemplate (useCap t) (Strings.ToUpper (literal t)).

End Regexp.

(** ** github.com/jinzhu/inflection: [Singular]

    Modelled from the spec: the package [inflection] is an imported
    library and not part of the repository sources; [ParseKind] calls its
    [Singular] to compute "the singular form of the input using standard
    English pluralization rules".  The model is built the way the
    library compiles its rules: uncountable words first, then the
    irregular plurals, then the regular rules from the last to the first,
    each rule in an upper-case, a verbatim and a case-insensitive
    variant; the first rule whose pattern matches rewrites the word, and
    a word no rule matches is returned as it is.  The case of the input
    is kept ([Pods] gives [Pod]).  Later releases of the library know
    more irregular and uncountable words; the lemmas that are stated for
    every [Singular] do not depend on the tables. *)

Module Inflection.
Import Regexp.

Record inflection : Type :=
  mkInflection { regexp : re; foldCase : bool; replace : template }.

Fixpoint cat_from (r : re) (l : list re) : re :=
  match l with
  | [] => r
  | r' :: l' => Seq r (cat_from r' l')
  end.

Definition cat (l : list re) : re :=
  match l with
  | [] => Opt Eol
  | r :: l' => cat_from r l'
  end.

Definition keep (s : string) : template := mkTemplate true s.
Definition subst (s : string) : template := mkTemplate false s.

Definition singularInflections : list (re * template) :=
  [ (cat [lit "s"; Eol], subst "")
  ; (cat [Cap (lit "ss"); Eol], keep "")
  ; (cat [Cap (lit "n"); lit "ews"; Eol], keep "ews")
  ; (cat [Cap (cls "ti"); lit "a"; Eol], keep "um")
  ; (cat [Cap (alts ["analy"; "ba"; "diagno"; "parenthe"; "progno"; "synop"; "the"]);
          alts ["sis"; "ses"]; Eol], keep "sis")
  ; (cat [Cap (Seq Bol (lit "analy")); alts ["sis"; "ses"]; Eol], keep "sis")
  ; (cat [Cap (ncls "f"); lit "ves"; Eol], keep "fe")
  ; (cat [Cap (lit "hive"); lit "s"; Eol], keep "")
  ; (cat [Cap (lit "tive"); lit "s"; Eol], keep "")
  ; (cat [Cap (cls "lr"); lit "ves"; Eol], keep "f")
  ; (cat [Cap (Alt (ncls "aeiouy") (lit "qu")); lit "ies"; Eol], keep "y")
  ; (cat [Cap (lit "s"); lit "eries"; Eol], keep "eries")
  ; (cat [Cap (lit "m"); lit "ovies"; Eol], keep "ovie")
  ; (cat [Cap (lit "c"); lit "ookies"; Eol], keep "ookie")
  ; (cat [Cap (alts ["x"; "ch"; "ss"; "sh"]); lit "es"; Eol], keep "")
  ; (cat [Bol; Cap (alts ["m"; "l"]); lit "ice"; Eol], keep "ouse")
  ; (cat [Cap (lit "bus"); Opt (lit "es"); Eol], keep "")
  ; (cat [Cap (lit "o"); lit "es"; Eol], keep "")
  ; (cat [Cap (lit "shoe"); lit "s"; Eol], keep "")
  ; (cat [Cap (alts ["cris"; "test"]); alts ["is"; "es"]; Eol], keep "is")
  ; (cat [Bol; Cap (lit "a"); lit "x"; cls "ie"; lit "s"; Eol], keep "xis")
  ; (cat [Cap (alts ["octop"; "vir"]); alts ["us"; "i"]; Eol], keep "us")
  ; (cat [Cap (alts ["alias"; "status"]); Opt (lit "es"); Eol], keep "")
  ; (cat [Bol; Cap (lit "ox"); lit "en"], keep "")
  ; (cat [Cap (alts ["vert"; "ind"]); lit "ices"; Eol], keep "ex")
  ; (cat [Cap (lit "matr"); lit "ices"; Eol], keep "ix")
  ; (cat [Cap (lit "quiz"); lit "zes"; Eol], keep "")
  ; (cat [Cap (lit "database"); lit "s"; Eol], keep "") ].

(** [(singular, plural)] *)
Definition irregularInflections : list (string * string) :=
  [ ("person", "people"); ("man", "men"); ("child", "children");
    ("sex", "sexes"); ("move", "moves"); ("mombie", "mombies") ].

Definition uncountableInflections : list string :=
  [ "equipment"; "information"; "rice"; "money"; "species"; "series";
    "fish"; "sheep"; "jeans"; "police" ].

Definition compiledSingularMaps : list inflection :=
  map (fun w => mkInflection (cat [Bol; Cap (lit w); Eol]) true (keep ""))
      uncountableInflections
  ++ flat_map (fun '(singular, plural) =>
       [ mkInflection (cat [lit (Strings.ToUpper plural); Eol]) false
                      (subst (Strings.ToUpper singular))
       ; mkInflection (cat [lit (Strings.Title plural); Eol]) false
                      (subst (Strings.Title singular))
       ; mkInflection (cat [lit plural; Eol]) false (subst singular) ])
     irregularInflections
  ++ flat_map (fun '(find, repl) =>
       [ mkInflection (upper find) false (upper_template repl)
       ; mkInflection find false repl
       ; mkInflection find true repl ])
     (rev singularInflections).

Fixpoint Singular_go (rules : list inflection) (str : string) : string :=
  match rules with
  | [] => str
  | i :: rules' =>
      if MatchString (foldCase i) (regexp i) str
      then ReplaceAllString (foldCase i) (regexp i) str (replace i)
      else Singular_go rules' str
  end.

Definition Singular (str : string) : string :=
  Singular_go compiledSingularMaps str.

End Inflection.

(** ** k8s.io/client-go/discovery: [ServerPreferredResources]

    The discovery client is an imported library.  Its contract, which is
    all [GetGVRs] sees of it: the groups are queried one by one; when the
    group list itself cannot be fetched the call returns no lists and that
    error; otherwise it returns the lists of the groups that answered
    and, when at least one group failed, a non-nil
    [ErrGroupDiscoveryFailed] naming the failed groups alongside them. *)

Module Discovery.
Import metav1.

Inductive groupResult : Type :=
  | Discovered (l : APIResourceList)
  | Failed (groupVersion : string).

Definition discoveredLists (rs : list groupResult) : list APIResourceList :=
  flat_map (fun r => match r with Discovered l => [l] | Failed _ => [] end) rs.

Definition failedGroups (rs : list groupResult) : list string :=
  flat_map (fun r => match r with Discovered _ => [] | Failed g => [g] end) rs.

Definition ServerPreferredResources (groups : error + list groupResult)
    : list APIResourceList * option error :=
  match groups with
  | inl e => ([], Some e)
  | inr rs =>
      (discoveredLists rs,
       match failedGroups rs with
       | [] => None
       | g :: gs => Some (ErrGroupDiscoveryFailed (g :: gs))
       end)
  end.

End Discovery.

(** ** package resourcesstore: [GetGVRs] and [ParseKind] *)

Module ResourcesStore.
Import schema metav1.

(** The two imported string functions.  The development is parametric in
    them, so that what is proved of [GetGVRs] and [ParseKind] does not
    depend on how closely [Strings.ToLower] and [Inflection.Singular]
    follow the libraries; [goImports] instantiates them for evaluation. *)
Class Imports : Type :=
  { ToLower : string -> string;      (* strings.ToLower *)
    Singular : string -> string }.   (* inflection.Singular *)

(** Of the fields of [resourceGetter] only the two that [GetGVRs] writes
    and [ParseKind] reads are kept; the others are client handles. *)
Record resourceGetter : Type :=
  mkResourceGetter
    { gvrs : list GroupVersionResource;
      gvktogvrSet : gmap string GroupVersionResource }.

(** A getter before [GetGVRs] has run: both fields are nil, and a nil Go
    map reads as the empty map. *)
Definition newResourceGetter : resourceGetter := mkResourceGetter [] ∅.

Section Getter.
Context `{Imports}.

(** The accumulators [resources] and [gvktogvrSet] of [GetGVRs]. *)
Definition acc : Type :=
  (list GroupVersionResource * gmap string GroupVersionResource)%type.

(** Body of the inner loop [for _, resource := range list.APIResources]. *)
Definition GetGVRs_resource (gv : schema.GroupVersion) (a : acc) (resource : APIResource) : acc :=
  ((a.1 ++ [mkGVR (gvGroup gv) (gvVersion gv) (Name resource)])%list,
   <[ToLower (Kind resource) := mkGVR (gvGroup gv) (gvVersion gv) (Name resource)]> a.2).

(** Body of the outer loop [for _, list := range lists]. *)
Definition GetGVRs_list (a : acc) (rl : APIResourceList) : acc :=
  if (length (APIResources rl) =? 0)%nat then a
  else match ParseGroupVersion (GroupVersion rl) with
       | (_, Some _) => a
       | (gv, None) => fold_left (GetGVRs_resource gv) (APIResources rl) a
       end.

(** [GetGVRs]: [resp] is what [rg.dcClient.ServerPreferredResources()]
    returned.  The result is the getter afterwards and the error. *)
Definition GetGVRs (rg : resourceGetter)
    (resp : list APIResourceList * option error) : resourceGetter * option error :=
  let '(lists, err) := resp in
  match err with
  | Some e => (rg, Some e)
  | None =>
      let '(resources, gvktogvrSet) := fold_left GetGVRs_list lists ([], ∅) in
      (mkResourceGetter resources gvktogvrSet, None)
  end.

(** [NewResourceGetter] as far as the index goes: it calls [GetGVRs] on
    the fresh getter and drops the error. *)
Definition NewResourceGetter (resp : list APIResourceList * option error) : resourceGetter :=
  (GetGVRs newResourceGetter resp).1.

(** [ParseKind]: the direct lookup under the lower-cased name, then the
    lookup under [inflection.Singular(kind)] of the name as given; on two
    misses [gvr] is the zero value left by the second lookup. *)
Definition ParseKind (rg : resourceGetter) (kind : string)
    : GroupVersionResource * option error :=
  match gvktogvrSet rg !! ToLower kind with
  | Some gvr => (gvr, None)
  | None =>
      match gvktogvrSet rg !! Singular kind with
      | Some gvr => (gvr, None)
      | None => (zeroGVR, Some ErrUnknownKind)
      end
  end.

(** *** What a pass contributes, list by list

    A list counts when it has resources and its [GroupVersion] parses. *)
Definition accepted (rl : APIResourceList) : option schema.GroupVersion :=
  if (length (APIResources rl) =? 0)%nat then None
  else match ParseGroupVersion (GroupVersion rl) with
       | (_, Some _) => None
       | (gv, None) => Some gv
       end.

Definition descriptor (gv : schema.GroupVersion) (resource : APIResource) : GroupVersionResource :=
  mkGVR (gvGroup gv) (gvVersion gv) (Name resource).

(** The (key, descriptor) pairs of one list and of a pass, in the order
    in which the loops visit the resources. *)
Definition entries_of (rl : APIResourceList) : list (string * GroupVersionResource) :=
  match accepted rl with
  | Some gv => map (fun r => (ToLower (Kind r), descriptor gv r)) (APIResources rl)
  | None => []
  end.

Definition entries (lists : list APIResourceList) : list (string * GroupVersionResource) :=
  flat_map entries_of lists.

(** Writing pairs into a map one after the other. *)
Definition insert_all (es : list (string * GroupVersionResource))
    (m : gmap string GroupVersionResource) : gmap string GroupVersionResource :=
  fold_left (fun m e => <[e.1 := e.2]> m) es m.

End Getter.

(** The instance used to run the definitions. *)
#[global] Instance goImports : Imports :=
  {| ToLower := Strings.ToLower; Singular := Inflection.Singular |}.

End ResourcesStore.

(** ** The watch cache

    Modelled from the spec: the object store behind the informers
    ([Store] and [NewStore] of package resourcesstore) is referred to by
    [NewResourceGetter] but its code is not part of the sources.  The
    model follows section 4.2: a cache is a keyed collection whose
    entries carry namespace, name, a version token and the payload, and
    an event is applied "only if its version token is strictly greater
    than the cached entry's token"; an event for a key with no cached
    entry has no token to be compared with and is applied. *)

Module WatchCache.

Inductive eventType : Type := Added | Modified | Deleted.

Record entry : Type := mkEntry { token : Z; payload : string }.

Record event : Type :=
  mkEvent { etype : eventType; namespace : string; name : string;
            etoken : Z; epayload : string }.

#[global] Instance entry_eq_dec : EqDecision entry.
Proof. solve_decision. Defined.

Abbreviation key := (string * string)%type.
Abbreviation cache := (gmap (string * string) entry).

Definition key_of (ev : event) : key := (namespace ev, name ev).

(** The effect of an event that is not dropped. *)
Definition perform (ev : event) (c : cache) : cache :=
  match etype ev with
  | Added | Modified => <[key_of ev := mkEntry (etoken ev) (epayload ev)]> c
  | Deleted => delete (key_of ev) c
  end.

(** The drop-stale rule. *)
Definition Apply (c : cache) (ev : event) : cache :=
  match c !! key_of ev with
  | Some e => if token e <? etoken ev then perform ev c else c
  | None => perform ev c
  end.

Definition ApplyAll (c : cache) (evs : list event) : cache :=
  fold_left Apply evs c.

(** An update event: [Added] or [Modified]. *)
Definition is_update (ev : event) : bool :=
  match etype ev with
  | Added | Modified => true
  | Deleted => false
  end.

Definition update (added : bool) (k : key) (tok : Z) (p : string) : event :=
  mkEvent (if added then Added else Modified) k.1 k.2 tok p.

End WatchCache.

(** ** int64 arithmetic *)

Module Int64.

Definition min_int : Z := - 2 ^ 63.
Definition max_int : Z := 2 ^ 63 - 1.

Definition in_range (z : Z) : Prop := min_int <= z <= max_int.

(** The value of a mathematical integer once stored in an int64. *)
Definition wrap (z : Z) : Z := (z + 2 ^ 63) mod 2 ^ 64 - 2 ^ 63.

Definition add (a b : Z) : Z := wrap (a + b).

End Int64.

(** ** gorm: the statements the stores issue

    A table is the list of its rows and a row maps column names to
    values, as the [map[string]interface{}] of [Updates] does.  Every
    statement takes the error, if any, with which the driver fails it; a
    failed statement leaves the table as it was. *)

Module Gorm.

Inductive value : Type :=
  | VInt (z : Z)
  | VString (s : string)
  | VTime (t : Z).

#[global] Instance value_eq_dec : EqDecision value.
Proof. solve_decision. Defined.

Abbreviation row := (gmap string value).
Abbreviation table := (list (gmap string value)).

Definition int_column (col : string) (r : row) : option Z :=
  match r !! col with
  | Some (VInt z) => Some z
  | _ => None
  end.

Definition column_is (col : string) (z : Z) (r : row) : bool :=
  match int_column col r with
  | Some z' => z' =? z
  | None => false
  end.

(** [Where("id = ?", id)] *)
Definition where_id (id : Z) (r : row) : bool := column_is "id" id r.

(** [Where("id = ? and resource_version = ?", id, resourceVersion)] *)
Definition where_id_version (id resourceVersion : Z) (r : row) : bool :=
  column_is "id" id r && column_is "resource_version" resourceVersion r.

(** The result of a statement: the table afterwards, [RowsAffected] and
    [Error]. *)
Record result : Type :=
  mkResult { Table : table; RowsAffected : Z; Error : option error }.

(** [db.Model(..).Where(sel).Updates(updates)]: the columns of [updates]
    are set in every selected row. *)
Definition Updates (sel : row -> bool) (updates : gmap string value)
    (fault : option error) (t : table) : result :=
  match fault with
  | Some e => mkResult t 0 (Some e)
  | None =>
      mkResult (map (fun r => if sel r then updates ∪ r else r) t)
               (Z.of_nat (length (filter (fun r => sel r = true) t))) None
  end.

(** [db.Where(sel).Delete(..)] *)
Definition Delete (sel : row -> bool) (fault : option error) (t : table) : result :=
  match fault with
  | Some e => mkResult t 0 (Some e)
  | None =>
      mkResult (filter (fun r => sel r = false) t)
               (Z.of_nat (length (filter (fun r => sel r = true) t))) None
  end.

(** [db.Where(sel).First(&object)]: the first selected row, or
    [ErrRecordNotFound].  (gorm orders by the primary key; the rows a
    [Where("id = ?")] selects all have the same one.) *)
Definition First (sel : row -> bool) (fault : option error) (t : table)
    : option row * option error :=
  match fault with
  | Some e => (None, Some e)
  | None =>
      match find sel t with
      | Some r => (Some r, None)
      | None => (None, Some ErrRecordNotFound)
      end
  end.

(** [errors.IsRecordNotFound] *)
Definition IsRecordNotFound (e : error) : bool := bool_decide (e = ErrRecordNotFound).

(** The system columns [Update] adds to the caller's map:
    [updates["gmt_modified"] = time.Now()] and
    [updates["resource_version"] = resourceVersion + 1].  The map is the
    caller's, written in place; it is taken to be non-nil, as at every
    call site. *)
Definition system_columns (now resourceVersion : Z) (updates : gmap string value)
    : gmap string value :=
  <["resource_version" := VInt (Int64.add resourceVersion 1)]>
    (<["gmt_modified" := VTime now]> updates).

End Gorm.

(** ** package mysql: the tenant store *)

Module Tenant.
Import Gorm.

(** [tenant.Update]; [now] is what [time.Now()] returns. *)
Definition Update (db : table) (fault : option error) (now : Z)
    (tid resourceVersion : Z) (updates : gmap string value) : table * option error :=
  let updates := system_columns now resourceVersion updates in
  let f := Updates (where_id_version tid resourceVersion) updates fault db in
  match Error f with
  | Some e => (Table f, Some e)
  | None =>
      if RowsAffected f =? 0 then (Table f, Some ErrRecordNotFound)
      else (Table f, None)
  end.

(** [tenant.Get] *)
Definition Get (db : table) (fault : option error) (tid : Z)
    : option row * option error :=
  match First (where_id tid) fault db with
  | (_, Some err) =>
      if IsRecordNotFound err then (None, None) else (None, Some err)
  | (object, None) => (object, None)
  end.

(** [tenant.Delete]; [fault_get] and [fault_delete] are the failures of
    its two statements. *)
Definition Delete (db : table) (fault_get fault_delete : option error) (tid : Z)
    : table * (option row * option error) :=
  match Get db fault_get tid with
  | (_, Some err) => (db, (None, Some err))
  | (None, None) => (db, (None, None))
  | (Some object, None) =>
      let d := Gorm.Delete (where_id tid) fault_delete db in
      match Error d with
      | Some err => (Table d, (None, Some err))
      | None => (Table d, (Some object, None))
      end
  end.

End Tenant.

(** ** package user: the user store *)

Module User.
Import Gorm.

(** [user.Update] *)
Definition Update (db : table) (fault : option error) (now : Z)
    (uid resourceVersion : Z) (updates : gmap string value) : table * option error :=
  let updates := system_columns now resourceVersion updates in
  let f := Updates (where_id_version uid resourceVersion) updates fault db in
  match Error f with
  | Some e => (Table f, Some e)
  | None =>
      if RowsAffected f =? 0 then (Table f, Some ErrRecordNotUpdate)
      else (Table f, None)
  end.

End User.

(** ** package core: the per-cluster kubeconfig service

    The service talks to the remote cluster through the clientset, to the
    database through the dao factory, and to the yaml, cipher, base64 and
    log packages.  Each such call is a node of the program tree, so that
    what an operation does before it returns can be read off the tree. *)

Module Core.

(** [types.KubeConfig] *)
Record KubeConfig : Type :=
  mkKubeConfig
    { CloudName : string; ServiceAccount : string; ClusterRole : string;
      Config : string; ExpirationTimestamp : string }.

(** [model.KubeConfig]: the columns of [types.KubeConfig] and, from the
    embedded model, the id and the resource version. *)
Record ModelKubeConfig : Type :=
  mkModelKubeConfig
    { mId : Z; mResourceVersion : Z;
      mCloudName : string; mServiceAccount : string; mClusterRole : string;
      mConfig : string; mExpirationTimestamp : string }.

(** [authenticationv1.TokenRequest], its status. *)
Record TokenStatus : Type :=
  mkTokenStatus { Token : string; TokenExpirationTimestamp : string }.

(** The kubeconfig document. *)
Record kubeconfig_cluster : Type :=
  mkCluster { clName : string; Server : string; CertificateAuthorityData : string }.

Record kubeconfig_context : Type :=
  mkContext { ctxName : string; ctxCluster : string; ctxUser : string }.

Record kubeconfig_user : Type :=
  mkUser { uName : string; uToken : string }.

Record kubeconfig : Type :=
  mkKubeconfig
    { APIVersion : string; Kind : string; CurrentContext : string;
      Clusters : list kubeconfig_cluster;
      Contexts : list kubeconfig_context;
      Users : list kubeconfig_user }.

(** The calls an operation can make. *)
Inductive call : Type -> Type :=
  (* the remote cluster, through c.client *)
  | ServiceAccountsCreate (ns saName : string) : call (option error)
  | ClusterRoleBindingsCreate (crbName saName ns clusterRole : string) : call (option error)
  | ConfigMapsGet (ns cmName : string) : call (gmap string string * option error)
  | ServiceAccountsCreateToken (ns saName : string) (expirationSeconds : Z)
      : call (TokenStatus * option error)
  | ClusterRoleBindingsDelete (crbName : string) : call (option error)
  | ServiceAccountsDelete (ns saName : string) : call (option error)
  (* the database, through c.factory.KubeConfig() *)
  | DaoCreate (obj : ModelKubeConfig) : call (option error)
  | DaoGet (kid : Z) : call (option ModelKubeConfig * option error)
  | DaoUpdate (kid resourceVersion : Z) (updates : gmap string string) : call (option error)
  | DaoDelete (kid : Z) : call (option error)
  | DaoList (cloudName : string) : call (list ModelKubeConfig * option error)
  (* local packages *)
  | YamlMarshal (config : kubeconfig) : call (string * option error)
  | YamlUnmarshal (bytes : string) (config : kubeconfig) : call (kubeconfig * option error)
  | CipherEncrypt (bytes : string) : call (string * option error)
  | CipherDecrypt (text : string) : call (string * option error)
  | Base64Encode (bytes : string) : call string
  | LogErrorf (format : string) (e : error) : call unit
  | LogError (e : error) : call unit.

Inductive callKind : Type := Remote | Database | Local.

Definition kind_of {X : Type} (c : call X) : callKind :=
  match c with
  | ServiceAccountsCreate _ _ | ClusterRoleBindingsCreate _ _ _ _
  | ConfigMapsGet _ _ | ServiceAccountsCreateToken _ _ _
  | ClusterRoleBindingsDelete _ | ServiceAccountsDelete _ _ => Remote
  | DaoCreate _ | DaoGet _ | DaoUpdate _ _ _ | DaoDelete _ | DaoList _ => Database
  | _ => Local
  end.

(** A program: it returns, panics, or makes a call and goes on with the
    answer. *)
Inductive prog (A : Type) : Type :=
  | Ret (a : A)
  | Panic (msg : string)
  | Do {X : Type} (c : call X) (k : X -> prog A).

Arguments Ret {A} a.
Arguments Panic {A} msg.
Arguments Do {A X} c k.

Fixpoint bind {A B : Type} (p : prog A) (f : A -> prog B) : prog B :=
  match p with
  | Ret a => f a
  | Panic msg => Panic msg
  | Do c k => Do c (fun x => bind (k x) f)
  end.

#[global] Instance prog_ret : MRet prog := @Ret.
#[global] Instance prog_bind : MBind prog := fun A B f p => bind p f.

Definition perform {X : Type} (c : call X) : prog X := Do c Ret.

(** [if err != nil { log.Logger.Errorf(format, err); return r }] *)
Definition failing {A : Type} (err : option error) (format : string)
    (r : error -> A) (k : prog A) : prog A :=
  match err with
  | Some e => _ ← perform (LogErrorf format e); Ret (r e)
  | None => k
  end.

(** [if err != nil { log.Logger.Error(err); return r }] *)
Definition failing_plain {A : Type} (err : option error)
    (r : error -> A) (k : prog A) : prog A :=
  match err with
  | Some e => _ ← perform (LogError e); Ret (r e)
  | None => k
  end.

(** [if err != nil { return r }] *)
Definition returning {A : Type} (err : option error)
    (r : error -> A) (k : prog A) : prog A :=
  match err with
  | Some e => Ret (r e)
  | None => k
  end.

(** *** Running a program

    A handler answers a call in a world; the run records every call. *)
Definition handler (W : Type) : Type := forall X : Type, call X -> W -> X * W.

Inductive outcome (A : Type) : Type :=
  | Returned (a : A)
  | Panicked (msg : string).

Arguments Returned {A} a.
Arguments Panicked {A} msg.

Fixpoint run {W A : Type} (h : handler W) (p : prog A) (w : W)
    (trace : list callKind) : outcome A * W * list callKind :=
  match p with
  | Ret a => (Returned a, w, trace)
  | Panic msg => (Panicked msg, w, trace)
  | Do c k =>
      let '(x, w') := h _ c w in
      run h (k x) w' (trace ++ [kind_of c])
  end.

(** A program that returns or panics without having made any call. *)
Definition silent {A : Type} (p : prog A) : Prop :=
  match p with
  | Ret _ | Panic _ => True
  | Do _ _ => False
  end.

(** *** The kubeconfig document *)

Definition newConfig : kubeconfig :=
  mkKubeconfig "v1" "Config" "kubernetes"
    [mkCluster "kubernetes" "" ""]
    [mkContext "kubernetes" "" ""]
    [mkUser "" ""].

(** [c.Clusters[0].Cluster.Server = server]; [None] is the index panic. *)
Definition setServer (c : kubeconfig) (server : string) : option kubeconfig :=
  match Clusters c with
  | cl :: cls =>
      Some (mkKubeconfig (APIVersion c) (Kind c) (CurrentContext c)
              (mkCluster (clName cl) server (CertificateAuthorityData cl) :: cls)
              (Contexts c) (Users c))
  | [] => None
  end.

Definition setCA (c : kubeconfig) (ca : string) : option kubeconfig :=
  match Clusters c with
  | cl :: cls =>
      Some (mkKubeconfig (APIVersion c) (Kind c) (CurrentContext c)
              (mkCluster (clName cl) (Server cl) ca :: cls)
              (Contexts c) (Users c))
  | [] => None
  end.

Definition setSA (c : kubeconfig) (saName saToken : string) : option kubeconfig :=
  match Contexts c, Users c with
  | cx :: cxs, u :: us =>
      Some (mkKubeconfig (APIVersion c) (Kind c) (CurrentContext c) (Clusters c)
              (mkContext (ctxName cx) (ctxCluster cx) saName :: cxs)
              (mkUser saName saToken :: us))
  | _, _ => None
  end.

(** Indexing an empty slice panics. *)
Definition indexed {A B : Type} (o : option A) (k : A -> prog B) : prog B :=
  match o with
  | Some a => k a
  | None => Panic "index out of range"
  end.

(** Reading a field through a nil pointer panics. *)
Definition deref {A B : Type} (o : option A) (k : A -> prog B) : prog B :=
  match o with
  | Some a => k a
  | None => Panic "nil pointer dereference"
  end.

(** *** The service *)

(** [*kubernetes.Clientset]: a handle on the cluster it was built for. *)
Definition Clientset : Type := string.

(** [kubeConfigs]; [client = None] is the nil clientset.  The dao
    factory is the database the [Dao] calls go to. *)
Record kubeConfigs : Type :=
  mkKubeConfigs { client : option Clientset; cloud : string }.

Definition NewKubeConfigs (client : option Clientset) (cloud : string) : kubeConfigs :=
  mkKubeConfigs client cloud.

Definition namespace : string := "kube-system".

Definition expirationSeconds : Z := 2592000.

Definition model2Type (m : ModelKubeConfig) : KubeConfig :=
  mkKubeConfig (mCloudName m) (mServiceAccount m) (mClusterRole m)
               (mConfig m) (mExpirationTimestamp m).

Definition type2Model (t : KubeConfig) : ModelKubeConfig :=
  mkModelKubeConfig 0 0 (CloudName t) (ServiceAccount t) (ClusterRole t)
                    (Config t) (ExpirationTimestamp t).

Definition newCA : prog (string * option error) :=
  '(data, err) ← perform (ConfigMapsGet namespace "kube-root-ca.crt");
  returning err (fun e => ("", Some e)) $
  ca ← perform (Base64Encode (default "" (data !! "ca.crt")));
  Ret (ca, None).

Definition createToken (saName : string) : prog (option TokenStatus * option error) :=
  '(token, err) ← perform (ServiceAccountsCreateToken namespace saName expirationSeconds);
  returning err (fun e => (None, Some e)) $
  Ret (Some token, None).

(** [kubeConfigs.Create].  The argument is a pointer the operation
    writes through, so the result is the caller's object afterwards
    together with the returned pair. *)
Definition Create (c : kubeConfigs) (kubeConfig : KubeConfig)
    : prog (KubeConfig * (option KubeConfig * option error)) :=
  match client c with
  | None => Ret (kubeConfig, (None, Some clientError))
  | Some _ =>
      let serverAddr := "https://39.100.127.217:6443" in
      let fail := fun e => (kubeConfig, (None, Some e)) in
      err ← perform (ServiceAccountsCreate namespace (ServiceAccount kubeConfig));
      failing err "failed to create service account: %v" fail $
      err ← perform (ClusterRoleBindingsCreate (ServiceAccount kubeConfig)
                       (ServiceAccount kubeConfig) namespace (ClusterRole kubeConfig));
      failing err "failed to create cluster role binding: %v" fail $
      '(ca, err) ← newCA;
      failing err "failed to get ca: %v" fail $
      '(token, err) ← createToken (ServiceAccount kubeConfig);
      failing err "failed to get token: %v" fail $
      deref token $ fun token =>
      indexed (setServer newConfig serverAddr) $ fun config =>
      indexed (setCA config ca) $ fun config =>
      indexed (setSA config (ServiceAccount kubeConfig) (Token token)) $ fun config =>
      '(configByte, err) ← perform (YamlMarshal config);
      failing_plain err fail $
      let kubeConfig :=
        mkKubeConfig (cloud c) (ServiceAccount kubeConfig) (ClusterRole kubeConfig)
                     configByte (TokenExpirationTimestamp token) in
      let fail := fun e => (kubeConfig, (None, Some e)) in
      let obj := type2Model kubeConfig in
      '(encrypted, err) ← perform (CipherEncrypt configByte);
      failing err "failed to encrypt kubeConfig: %v" fail $
      let obj :=
        mkModelKubeConfig (mId obj) (mResourceVersion obj) (mCloudName obj)
          (mServiceAccount obj) (mClusterRole obj) encrypted (mExpirationTimestamp obj) in
      err ← perform (DaoCreate obj);
      failing err "failed to create kubeConfig: %v" fail $
      Ret (kubeConfig, (Some kubeConfig, None))
  end.

(** [kubeConfigs.Update] *)
Definition Update (c : kubeConfigs) (kid : Z) : prog (option KubeConfig * option error) :=
  match client c with
  | None => Ret (None, Some clientError)
  | Some _ =>
      let fail := fun e => (None, Some e) in
      '(obj, err) ← perform (DaoGet kid);
      failing err "failed to get kubeConfig: %v" fail $
      deref obj $ fun obj =>
      '(configByte, err) ← perform (CipherDecrypt (mConfig obj));
      failing err "failed to decrypt kubeConfig: %v" fail $
      '(config, err) ← perform (YamlUnmarshal configByte newConfig);
      failing_plain err fail $
      '(token, err) ← createToken (mServiceAccount obj);
      failing err "failed to get token: %v" fail $
      deref token $ fun token =>
      indexed (setSA config (mServiceAccount obj) (Token token)) $ fun config =>
      '(newConfigByte, err) ← perform (YamlMarshal config);
      failing_plain err fail $
      '(newConfigEncryptStr, err) ← perform (CipherEncrypt newConfigByte);
      failing err "failed to encrypt kubeConfig: %v" fail $
      err ← perform (DaoUpdate kid (Int64.add (mResourceVersion obj) 1)
                       {["config" := newConfigEncryptStr]});
      failing err "failed to update kubeConfig: %v" fail $
      let kubeConfig := model2Type obj in
      Ret (Some (mkKubeConfig (CloudName kubeConfig) (ServiceAccount kubeConfig)
                   (ClusterRole kubeConfig) newConfigByte
                   (TokenExpirationTimestamp token)), None)
  end.

(** [kubeConfigs.Delete] *)
Definition Delete (c : kubeConfigs) (kid : Z) : prog (option error) :=
  match client c with
  | None => Ret (Some clientError)
  | Some _ =>
      '(obj, err) ← perform (DaoGet kid);
      returning err Some $
      deref obj $ fun obj =>
      err ← perform (ClusterRoleBindingsDelete (mServiceAccount obj));
      failing err "failed to delete cluster role binding: %v" Some $
      err ← perform (ServiceAccountsDelete namespace (mServiceAccount obj));
      failing err "failed to delete service account: %v" Some $
      err ← perform (DaoDelete kid);
      failing err "failed to delete kubeConfig: %v" Some $
      Ret None
  end.

(** [kubeConfigs.Get] *)
Definition Get (c : kubeConfigs) (kid : Z) : prog (option KubeConfig * option error) :=
  match client c with
  | None => Ret (None, Some clientError)
  | Some _ =>
      let fail := fun e => (None, Some e) in
      '(obj, err) ← perform (DaoGet kid);
      failing err "failed to get kubeConfig: %v" fail $
      deref obj $ fun obj =>
      '(configByte, err) ← perform (CipherDecrypt (mConfig obj));
      failing err "failed to decrypt kubeConfig: %v" fail $
      let kubeConfig := model2Type obj in
      Ret (Some (mkKubeConfig (CloudName kubeConfig) (ServiceAccount kubeConfig)
                   (ClusterRole kubeConfig) configByte
                   (ExpirationTimestamp kubeConfig)), None)
  end.

(** The loop of [kubeConfigs.List] over the rows read. *)
Fixpoint List_loop (objs : list ModelKubeConfig) (kubeConfigs : list KubeConfig)
    : prog (list KubeConfig * option error) :=
  match objs with
  | [] => Ret (kubeConfigs, None)
  | obj :: objs' =>
      '(configByte, err) ← perform (CipherDecrypt (mConfig obj));
      failing err "failed to decrypt kubeConfig: %v" (fun e => ([], Some e)) $
      let kubeConfig := model2Type obj in
      List_loop objs'
        (kubeConfigs ++ [mkKubeConfig (CloudName kubeConfig) (ServiceAccount kubeConfig)
                           (ClusterRole kubeConfig) configByte
                           (ExpirationTimestamp kubeConfig)])%list
  end.

(** [kubeConfigs.List] *)
Definition List (c : kubeConfigs) (cloudName : string)
    : prog (list KubeConfig * option error) :=
  match client c with
  | None => Ret ([], Some clientError)
  | Some _ =>
      '(objs, err) ← perform (DaoList cloudName);
      failing err "failed to list kubeConfig: %v" (fun e => ([], Some e)) $
      List_loop objs []
  end.

End Core.

(** ** Sample discovery answers *)

Module Sample.
Import schema metav1.

Definition podList : APIResourceList :=
  mkAPIResourceList "v1" [mkAPIResource "pods" "Pod" true].

Definition coreList : APIResourceList :=
  mkAPIResourceList "v1"
    [mkAPIResource "pods" "Pod" true; mkAPIResource "events" "Event" true].

Definition eventsList : APIResourceList :=
  mkAPIResourceList "events.k8s.io/v1" [mkAPIResource "events" "Event" true].

Definition appsList : APIResourceList :=
  mkAPIResourceList "apps/v1" [mkAPIResource "deployments" "Deployment" true].

Definition extensionsList : APIResourceList :=
  mkAPIResourceList "extensions/v1beta1" [mkAPIResource "ingresses" "Ingress" true].

Definition networkingList : APIResourceList :=
  mkAPIResourceList "networking.k8s.io/v1" [mkAPIResource "ingresses" "Ingress" true].

(** A custom resource whose kind is spelled [Pods]. *)
Definition podsKindList : APIResourceList :=
  mkAPIResourceList "example.com/v1" [mkAPIResource "podsets" "Pods" true].

Definition emptyList : APIResourceList := mkAPIResourceList "batch/v1" [].

Definition malformedList : APIResourceList :=
  mkAPIResourceList "a/b/c" [mkAPIResource "jobs" "Job" true].

Definition podGVR : GroupVersionResource := mkGVR "" "v1" "pods".

(** A row of the tenant (or user) table. *)
Definition record (id resourceVersion : Z) (name : string) : gmap string Gorm.value :=
  list_to_map [("id", Gorm.VInt id);
               ("resource_version", Gorm.VInt resourceVersion);
               ("name", Gorm.VString name)].

(** A world for running the kubeconfig service: nothing is stored and
    every call answers with the zero value and no error. *)
Definition quiet : Core.handler unit :=
  fun X c w =>
    (match c in Core.call X return X with
     | Core.ServiceAccountsCreate _ _ => None
     | Core.ClusterRoleBindingsCreate _ _ _ _ => None
     | Core.ConfigMapsGet _ _ => (∅, None)
     | Core.ServiceAccountsCreateToken _ _ _ => (Core.mkTokenStatus "" "", None)
     | Core.ClusterRoleBindingsDelete _ => None
     | Core.ServiceAccountsDelete _ _ => None
     | Core.DaoCreate _ => None
     | Core.DaoGet _ => (None, Some ErrRecordNotFound)
     | Core.DaoUpdate _ _ _ => None
     | Core.DaoDelete _ => None
     | Core.DaoList _ => ([], None)
     | Core.YamlMarshal _ => ("", None)
     | Core.YamlUnmarshal _ config => (config, None)
     | Core.CipherEncrypt bytes => (bytes, None)
     | Core.CipherDecrypt text => (text, None)
     | Core.Base64Encode bytes => bytes
     | Core.LogErrorf _ _ => tt
     | Core.LogError _ => tt
     end, w).

End Sample.

(** ** gorm: inserting and reading whole tables *)

Module GormRows.
Import Gorm.

(** The primary key an inserted row gets: its own [id] when that is set
    and not zero, else the one the database assigns. *)
Definition primary_key (object : row) (assigned : Z) : Z :=
  match int_column "id" object with
  | Some z => if z =? 0 then assigned else z
  | None => assigned
  end.

(** [db.Create(object)]: the row is appended under its primary key, which
    is written back into the object; a key that is taken is the driver's
    duplicate-entry error. *)
Definition Create (object : row) (assigned : Z) (fault : option error) (t : table)
    : row * result :=
  match fault with
  | Some e => (object, mkResult t 0 (Some e))
  | None =>
      let stored := <["id" := VInt (primary_key object assigned)]> object in
      if existsb (where_id (primary_key object assigned)) t
      then (object, mkResult t 0 (Some (ErrOther "Duplicate entry")))
      else (stored, mkResult (t ++ [stored]) 1 None)
  end.

(** [db.Find(&objects)] *)
Definition Find (fault : option error) (t : table) : table * option error :=
  match fault with
  | Some e => ([], Some e)
  | None => (t, None)
  end.

(** [Where("name = ?", name)] *)
Definition where_name (name : string) (r : row) : bool :=
  bool_decide (r !! "name" = Some (VString name)).

(** [object.GmtCreate = now; object.GmtModified = now] *)
Definition stamp (now : Z) (object : row) : row :=
  <["gmt_modified" := VTime now]> (<["gmt_create" := VTime now]> object).

End GormRows.

(** ** package mysql: the other operations of the tenant store *)

Module TenantOps.
Import Gorm GormRows.

(** [tenant.Create]; [assigned] is the key the database would assign. *)
Definition Create (db : table) (fault : option error) (now assigned : Z) (object : row)
    : table * (option row * option error) :=
  let '(object, c) := GormRows.Create (stamp now object) assigned fault db in
  match Error c with
  | Some err => (Table c, (None, Some err))
  | None => (Table c, (Some object, None))
  end.

(** [tenant.List] *)
Definition List (db : table) (fault : option error) : table * option error :=
  match Find fault db with
  | (_, Some err) => ([], Some err)
  | (objects, None) => (objects, None)
  end.

(** [tenant.GetTenantByName] *)
Definition GetTenantByName (db : table) (fault : option error) (name : string)
    : option row * option error :=
  match First (where_name name) fault db with
  | (_, Some err) =>
      if IsRecordNotFound err then (None, None) else (None, Some err)
  | (object, None) => (object, None)
  end.

End TenantOps.

(** ** package user: the other operations of the user store *)

Module UserOps.
Import Gorm GormRows.

(** [user.Create] *)
Definition Create (db : table) (fault : option error) (now assigned : Z) (obj : row)
    : table * (option row * option error) :=
  let '(obj, c) := GormRows.Create (stamp now obj) assigned fault db in
  match Error c with
  | Some err => (Table c, (None, Some err))
  | None => (Table c, (Some obj, None))
  end.

(** [user.Delete]: the error of the statement, whatever it removed. *)
Definition Delete (db : table) (fault : option error) (uid : Z) : table * option error :=
  let d := Gorm.Delete (where_id uid) fault db in
  (Table d, Error d).

(** [user.Get]: the error of [First] is passed on as it is. *)
Definition Get (db : table) (fault : option error) (uid : Z) : option row * option error :=
  match First (where_id uid) fault db with
  | (_, Some err) => (None, Some err)
  | (obj, None) => (obj, None)
  end.

(** [user.List] *)
Definition List (db : table) (fault : option error) : table * option error :=
  match Find fault db with
  | (_, Some err) => ([], Some err)
  | (us, None) => (us, None)
  end.

(** [user.GetByName] *)
Definition GetByName (db : table) (fault : option error) (name : string)
    : option row * option error :=
  match First (where_name name) fault db with
  | (_, Some err) => (None, Some err)
  | (obj, None) => (obj, None)
  end.

End UserOps.

(** ** package user: the roles of a user

    [model.UserRole] is used through its fields [UserID] and [RoleID].
    [SetUserRoles] runs in a transaction: its statements work on a copy
    of the table which [Commit] makes the table and [Rollback] drops. *)

Module UserRoles.

Record UserRole : Type := mkUserRole { UserID : Z; RoleID : Z }.

#[global] Instance UserRole_eq_dec : EqDecision UserRole.
Proof. solve_decision. Defined.

(** The errors with which the driver fails the statements of a
    transaction: [Begin], the delete, the creates (by position) and
    [Commit]. *)
Record faults : Type :=
  mkFaults { begin_fault : option error; delete_fault : option error;
             create_fault : nat -> option error; commit_fault : option error }.

Definition no_faults : faults := mkFaults None None (fun _ => None) None.

(** [tx.Where(&model.UserRole{UserID: uid}).Delete(&model.UserRole{})]:
    a struct condition keeps its non-zero fields only, and gorm refuses
    a delete that is left without a condition. *)
Definition deleteByStruct (uid : Z) (fault : option error) (t : list UserRole)
    : list UserRole * option error :=
  match fault with
  | Some e => (t, Some e)
  | None =>
      if uid =? 0 then (t, Some (ErrOther "WHERE conditions required"))
      else (filter (fun rm => UserID rm <> uid) t, None)
  end.

(** The loop [for _, rid := range rids] inside the transaction; [i] is
    the position of the next create.  [inr e] is the return after
    [tx.Rollback()]. *)
Fixpoint createRoles (f : faults) (uid : Z) (rids : list Z) (i : nat)
    (tx : list UserRole) : list UserRole + error :=
  match rids with
  | [] => inl tx
  | rid :: rids' =>
      match create_fault f i with
      | Some e => inr e
      | None => createRoles f uid rids' (S i) (tx ++ [mkUserRole uid rid])
      end
  end.

(** [user.SetUserRoles] *)
Definition SetUserRoles (db : list UserRole) (f : faults) (uid : Z) (rids : list Z)
    : list UserRole * option error :=
  match begin_fault f with
  | Some e => (db, Some e)
  | None =>
      match deleteByStruct uid (delete_fault f) db with
      | (_, Some e) => (db, Some e)
      | (tx, None) =>
          match createRoles f uid rids 0 tx with
          | inr e => (db, Some e)
          | inl tx' =>
              match commit_fault f with
              | Some e => (db, Some e)
              | None => (tx', None)
              end
          end
      end
  end.

(** [user.GetRoleIDByUser]: the map with the one key ["role_ids"]. *)
Definition GetRoleIDByUser (db : list UserRole) (fault : option error) (uid : Z)
    : option (gmap string (list Z)) * option error :=
  match fault with
  | Some e => (None, Some e)
  | None =>
      (Some {["role_ids" := map RoleID (filter (fun rm => UserID rm = uid) db)]}, None)
  end.

(** [user.DeleteRolesByUserID] *)
Definition DeleteRolesByUserID (db : list UserRole) (fault : option error) (uid : Z)
    : list UserRole * option error :=
  match fault with
  | Some e => (db, Some e)
  | None => (filter (fun rm => UserID rm <> uid) db, None)
  end.

End UserRoles.

(** ** package resourcesstore: [NewInformersForResource] *)

Module Informers.
Import schema ResourcesStore.

#[global] Instance GroupVersionResource_countable : Countable GroupVersionResource.
Proof.
  apply (inj_countable' (fun g => (Group g, Version g, Resource g))
                        (fun t => mkGVR t.1.1 t.1.2 t.2)).
  by intros [].
Defined.

Section Factory.
Context {Informer : Type}.

(** [rg.sharedInformerFactory.ForResource(gvr)]: the informer of a
    resource the factory knows, an error for any other. *)
Variable ForResource : GroupVersionResource -> Informer * option error.

(** Body of the loop [for _, gvr := range rg.gvrs]: a resource without
    informer is logged and stepped over. *)
Definition NewInformersForResource_gvr (informers : gmap GroupVersionResource Informer)
    (gvr : GroupVersionResource) : gmap GroupVersionResource Informer :=
  match ForResource gvr with
  | (_, Some _) => informers
  | (informer, None) => <[gvr := informer]> informers
  end.

(** [NewInformersForResource]: the map stored in [rg.informers] and the
    error returned. *)
Definition NewInformersForResource (rg : resourceGetter)
    : gmap GroupVersionResource Informer * option error :=
  (fold_left NewInformersForResource_gvr (gvrs rg) ∅, None).

End Factory.

End Informers.

(** ** package core: which calls a run makes *)

Module CoreTrace.
Import Core.

Inductive callName : Type :=
  | NServiceAccountsCreate | NClusterRoleBindingsCreate | NConfigMapsGet
  | NServiceAccountsCreateToken | NClusterRoleBindingsDelete | NServiceAccountsDelete
  | NDaoCreate | NDaoGet | NDaoUpdate | NDaoDelete | NDaoList
  | NYamlMarshal | NYamlUnmarshal | NCipherEncrypt | NCipherDecrypt | NBase64Encode
  | NLogErrorf | NLogError.

#[global] Instance callName_eq_dec : EqDecision callName.
Proof. solve_decision. Defined.





End CoreTrace.

(** ** package plan: the configuration of a plan

    The dao ([p.factory.Plan()]), the three specification types of
    package types and their [Marshal] and [Unmarshal] methods are not
    part of the sources: the dao is a record of state transformers, the
    specifications are type parameters and their codecs a record of
    functions. *)

Module Plan.

(** [model.Config], the fields [makePlanConfig] and [modelConfig2Type]
    use. *)
Record Config : Type :=
  mkConfig
    { cId : Z; cResourceVersion : Z; cGmtCreate : Z; cGmtModified : Z;
      cPlanId : Z; cName : string; cRegion : string; cDescription : string;
      cKubernetes : string; cNetwork : string; cRuntime : string }.

(** The dao of the plan configurations over a database [S]. *)
Record dao (S : Type) : Type :=
  mkDao
    { GetConfigByPlan : Z -> S -> (option Config * option error) * S;
      CreatConfig : Config -> S -> (option Config * option error) * S;
      DaoDeleteConfig : Z -> S -> (option Config * option error) * S }.

Arguments GetConfigByPlan {S} _ _ _.
Arguments CreatConfig {S} _ _ _.
Arguments DaoDeleteConfig {S} _ _ _.

Section Specs.
Context {KubernetesSpec NetworkSpec RuntimeSpec : Type}.

(** [types.CreatePlanConfigRequest], the fields the code reads. *)
Record CreatePlanConfigRequest : Type :=
  mkRequest
    { rPlanId : Z; rName : string;
      rKubernetes : KubernetesSpec; rNetwork : NetworkSpec; rRuntime : RuntimeSpec }.

(** [types.PlanConfig] *)
Record PlanConfig : Type :=
  mkPlanConfig
    { pId : Z; pResourceVersion : Z; pGmtCreate : Z; pGmtModified : Z;
      pPlanId : Z; pName : string; pRegion : string; pDescription : string;
      pKubernetes : KubernetesSpec; pNetwork : NetworkSpec; pRuntime : RuntimeSpec }.

(** The [Marshal] and [Unmarshal] methods of the three specifications. *)
Record codecs : Type :=
  mkCodecs
    { ksMarshal : KubernetesSpec -> string * option error;
      ksUnmarshal : string -> KubernetesSpec * option error;
      nsMarshal : NetworkSpec -> string * option error;
      nsUnmarshal : string -> NetworkSpec * option error;
      rsMarshal : RuntimeSpec -> string * option error;
      rsUnmarshal : string -> RuntimeSpec * option error }.

Variable cd : codecs.

(** [fmt.Errorf] of the already-exists message for a plan id, and
    [errors.ErrServerInternal]. *)
Variable existsError : Z -> error.
Variable ErrServerInternal : error.

(** [plan.makePlanConfig] *)
Definition makePlanConfig (req : CreatePlanConfigRequest) : option Config * option error :=
  match ksMarshal cd (rKubernetes req) with
  | (_, Some err) => (None, Some err)
  | (kubeConfig, None) =>
      match nsMarshal cd (rNetwork req) with
      | (_, Some err) => (None, Some err)
      | (networkConfig, None) =>
          match rsMarshal cd (rRuntime req) with
          | (_, Some err) => (None, Some err)
          | (runtimeConfig, None) =>
              (Some (mkConfig 0 0 0 0 (rPlanId req) "" "" ""
                       kubeConfig networkConfig runtimeConfig), None)
          end
      end
  end.

(** [plan.modelConfig2Type] *)
Definition modelConfig2Type (o : Config) : option PlanConfig * option error :=
  match ksUnmarshal cd (cKubernetes o) with
  | (_, Some err) => (None, Some err)
  | (ks, None) =>
      match nsUnmarshal cd (cNetwork o) with
      | (_, Some err) => (None, Some err)
      | (ns, None) =>
          match rsUnmarshal cd (cRuntime o) with
          | (_, Some err) => (None, Some err)
          | (rs, None) =>
              (Some (mkPlanConfig (cId o) (cResourceVersion o) (cGmtCreate o)
                       (cGmtModified o) (cPlanId o) (cName o) (cRegion o)
                       (cDescription o) ks ns rs), None)
          end
      end
  end.

Section WithDao.
Context {S : Type} (d : dao S).

(** [plan.preCreateConfig] *)
Definition preCreateConfig (planId : Z) (req : CreatePlanConfigRequest) (s : S)
    : option error * S :=
  let '((_, err), s') := GetConfigByPlan d planId s in
  match err with
  | None => (Some (existsError planId), s')
  | Some _ => (None, s')
  end.

(** [plan.CreateConfig]: the error, the database afterwards and the
    lines logged. *)
Definition CreateConfig (pid : Z) (req : CreatePlanConfigRequest) (s : S)
    : option error * S * list string :=
  match preCreateConfig pid req s with
  | (Some err, s') => (Some err, s', [])
  | (None, s') =>
      match makePlanConfig req with
      | (_, Some err) => (Some err, s', [])
      | (None, None) => (None, s', [])
      | (Some planConfig, None) =>
          let '((_, err), s'') := CreatConfig d planConfig s' in
          match err with
          | Some e => (Some e, s'', ["failed to create plan(%s) config(%d): %v"])
          | None => (None, s'', [])
          end
      end
  end.

(** [plan.UpdateConfig] *)
Definition UpdateConfig (pid cfgId : Z) (s : S) : option error * S := (None, s).

(** [plan.DeleteConfig] *)
Definition DeleteConfig (pid cfgId : Z) (s : S) : option error * S * list string :=
  let '((_, err), s') := DaoDeleteConfig d cfgId s in
  match err with
  | Some _ => (Some ErrServerInternal, s', ["failed to delete plan(%d) config(%d): %v"])
  | None => (None, s', [])
  end.

(** [plan.GetConfig]; a nil object without error is dereferenced by
    [modelConfig2Type]. *)
Definition GetConfig (pid cfgId : Z) (s : S)
    : Core.outcome (option PlanConfig * option error) * S * list string :=
  let '((object, err), s') := GetConfigByPlan d pid s in
  match err with
  | Some _ => (Core.Returned (None, Some ErrServerInternal), s',
               ["failed to get plan(%d) config(%d): %v"])
  | None =>
      match object with
      | Some o => (Core.Returned (modelConfig2Type o), s', [])
      | None => (Core.Panicked "nil pointer dereference", s', [])
      end
  end.

End WithDao.
End Specs.

Arguments CreatePlanConfigRequest : clear implicits.
Arguments PlanConfig : clear implicits.
Arguments codecs : clear implicits.

End Plan.

(** ** More sample data *)

Module SampleMore.
Import schema.

(** A factory that knows pods and deployments only. *)
Definition knownInformers (gvr : GroupVersionResource) : string * option error :=
  if String.eqb (Resource gvr) "pods" then ("pods informer", None)
  else if String.eqb (Resource gvr) "deployments" then ("deployments informer", None)
  else ("", Some (ErrOther "no informer found")).

(** A world in which the dao finds no row and reports no error. *)
Definition absentRow : Core.handler unit :=
  fun X c w =>
    match c in Core.call X return X * unit with
    | Core.DaoGet _ => ((None, None), w)
    | c' => Sample.quiet _ c' w
    end.

(** A world whose stored document has no user entry. *)
Definition userlessDocument : Core.handler unit :=
  fun X c w =>
    match c in Core.call X return X * unit with
    | Core.DaoGet kid =>
        ((Some (Core.mkModelKubeConfig kid 0 "c1" "sa" "admin" "" ""), None), w)
    | Core.YamlUnmarshal _ config =>
        ((Core.mkKubeconfig "v1" "Config" "kubernetes" [] (Core.Contexts config) [], None), w)
    | c' => Sample.quiet _ c' w
    end.

(** A world with two stored rows whose configs decrypt to their
    reverses, except the empty one, which does not decrypt. *)
Definition decryptReverse (text : string) : string * option error :=
  if String.eqb text "" then ("", Some (ErrOther "cipher: message too short"))
  else (String.rev text, None).

Definition twoRows : Core.handler unit :=
  fun X c w =>
    match c in Core.call X return X * unit with
    | Core.DaoList cloudName =>
        (([Core.mkModelKubeConfig 1 0 cloudName "sa1" "admin" "abc" "";
           Core.mkModelKubeConfig 2 0 cloudName "sa2" "view" "xyz" ""], None), w)
    | Core.CipherDecrypt text => (decryptReverse text, w)
    | c' => Sample.quiet _ c' w
    end.

(** Specifications that are strings, marshalled as they are. *)
Definition plainCodecs : Plan.codecs string string string :=
  let marshal := fun x : string => (x, None) in
  let unmarshal := fun b : string => (b, None) in
  Plan.mkCodecs marshal unmarshal marshal unmarshal marshal unmarshal.

(** A dao over the list of the stored configurations. *)
Definition listDao : Plan.dao (list Plan.Config) :=
  Plan.mkDao (list Plan.Config)
    (fun planId s =>
       match find (fun c => Plan.cPlanId c =? planId) s with
       | Some c => ((Some c, None), s)
       | None => ((None, Some ErrRecordNotFound), s)
       end)
    (fun cfg s => ((Some cfg, None), s ++ [cfg]))
    (fun cfgId s => ((None, None), filter (fun c => Plan.cId c <> cfgId) s)).

End SampleMore.

(** * Properties *)

(** ** Discovery and kind resolution *)

Section GetterFacts.
Import schema metav1 ResourcesStore.
Context `{Imports}.

Lemma insert_all_app es1 es2 m :
  insert_all (es1 ++ es2) m = insert_all es2 (insert_all es1 m).
Proof. unfold insert_all. by rewrite fold_left_app. Qed.

Lemma insert_all_lookup_notin es m k :
  k ∉ map fst es -> insert_all es m !! k = m !! k.
Proof.
  revert m. induction es as [|[k' g'] es IH]; intros m Hk; [done|].
  cbn in Hk. apply not_elem_of_cons in Hk as [Hne Hk].
  cbn. rewrite IH by done. by rewrite lookup_insert_ne.
Qed.

Lemma insert_all_lookup_last l1 k g l2 m :
  k ∉ map fst l2 -> insert_all (l1 ++ (k, g) :: l2) m !! k = Some g.
Proof.
  intros Hk. rewrite insert_all_app. cbn.
  change (fold_left _ l2 ?m') with (insert_all l2 m').
  rewrite insert_all_lookup_notin by done. apply lookup_insert_eq.
Qed.

(** The last pair under a key that occurs. *)
Lemma last_occurrence (es : list (string * GroupVersionResource)) k :
  k ∈ map fst es ->
  exists l1 g l2, es = l1 ++ (k, g) :: l2 /\ k ∉ map fst l2.
Proof.
  induction es as [|[k' g'] es IH]; cbn; intros Hk.
  - by apply elem_of_nil in Hk.
  - destruct (decide (k ∈ map fst es)) as [Hin|Hnin].
    + destruct (IH Hin) as (l1 & g & l2 & -> & Hl2).
      by exists ((k', g') :: l1), g, l2.
    + apply elem_of_cons in Hk as [->|Hk]; [|done].
      by exists [], g', es.
Qed.

Lemma insert_all_lookup_Some es k g :
  insert_all es ∅ !! k = Some g <->
  exists l1 l2, es = l1 ++ (k, g) :: l2 /\ k ∉ map fst l2.
Proof.
  split.
  - intros Hl. destruct (decide (k ∈ map fst es)) as [Hin|Hnin].
    + destruct (last_occurrence es k Hin) as (l1 & g' & l2 & -> & Hl2).
      rewrite insert_all_lookup_last in Hl by done.
      injection Hl as ->. by exists l1, l2.
    + rewrite insert_all_lookup_notin in Hl by done.
      by rewrite lookup_empty in Hl.
  - intros (l1 & l2 & -> & Hl2). by apply insert_all_lookup_last.
Qed.

Lemma GetGVRs_resources_spec gv rs (a : acc) :
  fold_left (GetGVRs_resource gv) rs a
  = (a.1 ++ map (descriptor gv) rs,
     insert_all (map (fun r => (ToLower (Kind r), descriptor gv r)) rs) a.2).
Proof.
  revert a. induction rs as [|r rs IH]; intros [res set]; cbn.
  - by rewrite app_nil_r.
  - rewrite IH. cbn. by rewrite <- app_assoc.
Qed.

Lemma GetGVRs_list_spec (a : acc) rl :
  GetGVRs_list a rl = (a.1 ++ map snd (entries_of rl), insert_all (entries_of rl) a.2).
Proof.
  unfold GetGVRs_list, entries_of, accepted.
  destruct (length (APIResources rl) =? 0)%nat.
  { cbn. rewrite app_nil_r. by destruct a. }
  destruct (ParseGroupVersion (GroupVersion rl)) as [gv [e|]].
  { cbn. rewrite app_nil_r. by destruct a. }
  rewrite GetGVRs_resources_spec. by rewrite map_map.
Qed.

Lemma GetGVRs_lists_spec lists (a : acc) :
  fold_left GetGVRs_list lists a
  = (a.1 ++ map snd (entries lists), insert_all (entries lists) a.2).
Proof.
  revert a. induction lists as [|rl lists IH]; intros a; cbn.
  - rewrite app_nil_r. by destruct a.
  - rewrite IH, GetGVRs_list_spec. cbn.
    by rewrite map_app, app_assoc, insert_all_app.
Qed.

Lemma GetGVRs_ok rg lists :
  GetGVRs rg (lists, None)
  = (mkResourceGetter (map snd (entries lists)) (insert_all (entries lists) ∅), None).
Proof. unfold GetGVRs. by rewrite GetGVRs_lists_spec. Qed.

Lemma entries_elem lists rl gv r :
  rl ∈ lists -> accepted rl = Some gv -> r ∈ APIResources rl ->
  (ToLower (Kind r), descriptor gv r) ∈ entries lists.
Proof.
  intros Hrl Hacc Hr. unfold entries.
  apply list_elem_of_In, in_flat_map. exists rl. split; [by apply list_elem_of_In|].
  unfold entries_of. rewrite Hacc. apply list_elem_of_In.
  by apply (list_elem_of_fmap_2 (fun r => (ToLower (Kind r), descriptor gv r))).
Qed.

Lemma ParseKind_direct rg kind g :
  gvktogvrSet rg !! ToLower kind = Some g -> ParseKind rg kind = (g, None).
Proof. unfold ParseKind. by intros ->. Qed.

Lemma ParseKind_retry rg kind g :
  gvktogvrSet rg !! ToLower kind = None ->
  gvktogvrSet rg !! Singular kind = Some g -> ParseKind rg kind = (g, None).
Proof. unfold ParseKind. by intros -> ->. Qed.

Lemma ParseKind_unknown rg kind :
  gvktogvrSet rg !! ToLower kind = None ->
  gvktogvrSet rg !! Singular kind = None ->
  ParseKind rg kind = (zeroGVR, Some ErrUnknownKind).
Proof. unfold ParseKind. by intros -> ->. Qed.

End GetterFacts.

Section GetterClaims.
Import schema metav1 ResourcesStore.
Context `{Imports}.

Lemma accepted_Some rl gv :
  accepted rl = Some gv <->
  APIResources rl <> [] /\ ParseGroupVersion (GroupVersion rl) = (gv, None).
Proof.
  unfold accepted. destruct (APIResources rl) as [|r rs]; cbn.
  - split; [done|]. by intros [? _].
  - destruct (ParseGroupVersion (GroupVersion rl)) as [gv' [e|]]; split;
      try done; try (by intros [_ ?]).
    + intros [= ->]. done.
    + intros [_ [= ->]]. done.
Qed.

Lemma entries_elem_inv lists k g :
  (k, g) ∈ entries lists ->
  exists rl gv r, rl ∈ lists /\ accepted rl = Some gv /\ r ∈ APIResources rl
                  /\ k = ToLower (Kind r) /\ g = descriptor gv r.
Proof.
  intros Hin. apply list_elem_of_In, in_flat_map in Hin as (rl & Hrl & Hin).
  unfold entries_of in Hin. destruct (accepted rl) as [gv|] eqn:Hacc; [|done].
  apply in_map_iff in Hin as (r & [= <- <-] & Hr).
  exists rl, gv, r. by rewrite <- !list_elem_of_In in *.
Qed.

(** The lower-cased kind of a resource of a list that counts is a key
    afterwards, and what it is mapped to is the descriptor of a resource
    of the pass with that lower-cased kind. *)
Lemma lookup_discovered_kind rg lists rl gv r :
  rl ∈ lists -> accepted rl = Some gv -> r ∈ APIResources rl ->
  exists rl' gv' r',
    rl' ∈ lists /\ accepted rl' = Some gv' /\ r' ∈ APIResources rl'
    /\ ToLower (Kind r') = ToLower (Kind r)
    /\ gvktogvrSet (GetGVRs rg (lists, None)).1 !! ToLower (Kind r)
       = Some (mkGVR (gvGroup gv') (gvVersion gv') (Name r')).
Proof.
  intros Hrl Hacc Hr. rewrite GetGVRs_ok. cbn.
  pose proof (entries_elem lists rl gv r Hrl Hacc Hr) as Hin.
  assert (ToLower (Kind r) ∈ map fst (entries lists)) as Hk.
  { by apply (list_elem_of_fmap_2 fst) in Hin. }
  destruct (last_occurrence _ _ Hk) as (l1 & g & l2 & Heq & Hl2).
  assert ((ToLower (Kind r), g) ∈ entries lists) as Hg.
  { rewrite Heq. apply elem_of_app. right. apply elem_of_cons. by left. }
  apply entries_elem_inv in Hg as (rl' & gv' & r' & ? & ? & ? & Hk' & ->).
  exists rl', gv', r'. repeat split; try done.
  rewrite Heq. by apply insert_all_lookup_last.
Qed.

Lemma skipped_list (a : acc) rl :
  APIResources rl = [] \/ (ParseGroupVersion (GroupVersion rl)).2 <> None ->
  GetGVRs_list a rl = a.
Proof.
  unfold GetGVRs_list. intros [->|Herr]; [done|].
  destruct (length (APIResources rl) =? 0)%nat; [done|].
  by destruct (ParseGroupVersion (GroupVersion rl)) as [gv [e|]].
Qed.

(** C2 (as amended): [GetGVRs] returns whatever error the discovery call
    reports and leaves the getter as it was, and the discovery client
    reports an error as soon as one group fails, so a failed group aborts
    the pass.  When the call reports no error the pass itself never
    fails (lists that are empty or do not parse are stepped over), and
    every kind of the lists that count resolves afterwards. *)
Theorem C2_GetGVRs_aborts_on_discovery_error rg :
  (forall lists e, GetGVRs rg (lists, Some e) = (rg, Some e))
  /\ (forall rs g gs, Discovery.failedGroups rs = g :: gs ->
        GetGVRs rg (Discovery.ServerPreferredResources (inr rs))
        = (rg, Some (ErrGroupDiscoveryFailed (g :: gs))))
  /\ (forall lists, (GetGVRs rg (lists, None)).2 = None)
  /\ (forall lists rl gv r,
        rl ∈ lists -> accepted rl = Some gv -> r ∈ APIResources rl ->
        (ParseKind (GetGVRs rg (lists, None)).1 (Kind r)).2 = None).
Proof.
  split; [done|]. split; [|split].
  - intros rs g gs Hf. cbn. by rewrite Hf.
  - intros lists. by rewrite GetGVRs_ok.
  - intros lists rl gv r Hrl Hacc Hr.
    destruct (lookup_discovered_kind rg lists rl gv r Hrl Hacc Hr)
      as (rl' & gv' & r' & _ & _ & _ & _ & Hd).
    by erewrite ParseKind_direct.
Qed.

(** C3: [ParseKind] looks the lower-cased name up; on a miss it looks
    [Singular] of the name up; it returns the unknown-kind error exactly
    when both lookups miss, and then, and only then, the zero descriptor
    in place of an entry of the index. *)
Theorem C3_ParseKind_direct_then_singular rg kind :
  let direct := gvktogvrSet rg !! ToLower kind in
  let retry := gvktogvrSet rg !! Singular kind in
  (forall g, direct = Some g -> ParseKind rg kind = (g, None))
  /\ (forall g, direct = None -> retry = Some g -> ParseKind rg kind = (g, None))
  /\ ((ParseKind rg kind).2 <> None <-> direct = None /\ retry = None)
  /\ (ParseKind rg kind = (zeroGVR, Some ErrUnknownKind)
      <-> direct = None /\ retry = None).
Proof.
  cbn. unfold ParseKind.
  destruct (gvktogvrSet rg !! ToLower kind) as [g1|];
    [|destruct (gvktogvrSet rg !! Singular kind) as [g2|]];
    repeat split; cbn; try done; try congruence;
    try (by intros [? ?]); try (by intros [= ? ?]).
Qed.

(** C4 (as amended): a pass that the discovery call lets through never
    fails; the GVR list is, in order, the descriptors of the resources of
    the lists that count; the index maps a key to the descriptor written
    last under it, so the lower-cased kind of every such resource is
    mapped to the descriptor of a resource of the pass with that
    lower-cased kind; a list that is empty or does not parse contributes
    nothing. *)
Theorem C4_GetGVRs_index_last_wins rg lists :
  let rg' := (GetGVRs rg (lists, None)).1 in
  (GetGVRs rg (lists, None)).2 = None
  /\ gvrs rg' = map snd (entries lists)
  /\ (forall k g, gvktogvrSet rg' !! k = Some g <->
        exists l1 l2, entries lists = l1 ++ (k, g) :: l2 /\ k ∉ map fst l2)
  /\ (forall rl gv r,
        rl ∈ lists -> accepted rl = Some gv -> r ∈ APIResources rl ->
        exists rl' gv' r',
          rl' ∈ lists /\ accepted rl' = Some gv' /\ r' ∈ APIResources rl'
          /\ ToLower (Kind r') = ToLower (Kind r)
          /\ gvktogvrSet rg' !! ToLower (Kind r)
             = Some (mkGVR (gvGroup gv') (gvVersion gv') (Name r')))
  /\ (forall l1 rl l2,
        lists = l1 ++ rl :: l2 ->
        APIResources rl = [] \/ (ParseGroupVersion (GroupVersion rl)).2 <> None ->
        GetGVRs rg (lists, None) = GetGVRs rg (l1 ++ l2, None)).
Proof.
  intros rg'. subst rg'.
  split; [by rewrite GetGVRs_ok|]. split; [by rewrite GetGVRs_ok|].
  split; [|split].
  - intros k g. rewrite GetGVRs_ok. apply insert_all_lookup_Some.
  - intros rl gv r. apply lookup_discovered_kind.
  - intros l1 rl l2 -> Hskip. unfold GetGVRs.
    rewrite !fold_left_app. cbn. by rewrite skipped_list.
Qed.

(** C6 (as amended): looking up the lower-cased kind of a discovered
    resource yields that resource's own descriptor provided no resource
    visited later in the pass, in the same list or in a later list that
    counts, has the same lower-cased kind. *)
Theorem C6_own_descriptor_unless_overwritten rg l1 rl l2 gv r1 r r2 :
  accepted rl = Some gv ->
  APIResources rl = r1 ++ r :: r2 ->
  (forall r', r' ∈ r2 -> ToLower (Kind r') <> ToLower (Kind r)) ->
  (forall rl' r', rl' ∈ l2 -> accepted rl' <> None -> r' ∈ APIResources rl' ->
     ToLower (Kind r') <> ToLower (Kind r)) ->
  gvktogvrSet (GetGVRs rg (l1 ++ rl :: l2, None)).1 !! ToLower (Kind r)
  = Some (mkGVR (gvGroup gv) (gvVersion gv) (Name r)).
Proof.
  intros Hacc Hrs Hsame Hlater. rewrite GetGVRs_ok. cbn.
  set (f := fun r => (ToLower (Kind r), descriptor gv r)).
  assert (entries (l1 ++ rl :: l2)
          = (entries l1 ++ map f r1) ++ f r :: (map f r2 ++ entries l2)) as ->.
  { unfold entries. rewrite flat_map_app. cbn. unfold entries_of at 2.
    rewrite Hacc, Hrs, map_app. cbn. by rewrite <- !app_assoc. }
  apply (insert_all_lookup_last _ (ToLower (Kind r)) (descriptor gv r)).
  rewrite map_app. intros [Hin|Hin]%elem_of_app.
  - rewrite map_map in Hin. apply list_elem_of_fmap in Hin as (r' & Heq & Hr').
    by apply (Hsame r' Hr').
  - apply list_elem_of_fmap in Hin as ([k g] & Heq & Hin). cbn in Heq. subst k.
    apply entries_elem_inv in Hin as (rl' & gv' & r' & ? & Hacc' & ? & Hk & _).
    apply (Hlater rl' r'); try done. by rewrite Hacc'.
Qed.

End GetterClaims.

Section GetterRuns.
Import schema metav1 ResourcesStore Sample.

(** C1 (as amended): when a list that counts holds a resource of kind
    [Pod], the index has an entry under ["pod"], and [ParseKind] returns
    that entry for ["pod"] and for ["Pod"], and for ["pods"] as long as
    no discovered kind lower-cases to ["pods"]. *)
Theorem C1_ParseKind_pod_forms rg0 lists rl gv r :
  rl ∈ lists -> accepted rl = Some gv -> r ∈ APIResources rl -> Kind r = "Pod" ->
  let rg := (GetGVRs rg0 (lists, None)).1 in
  exists d,
    gvktogvrSet rg !! "pod" = Some d
    /\ ParseKind rg "pod" = (d, None)
    /\ ParseKind rg "Pod" = (d, None)
    /\ (gvktogvrSet rg !! "pods" = None -> ParseKind rg "pods" = (d, None)).
Proof.
  intros Hrl Hacc Hr HPod rg.
  destruct (lookup_discovered_kind rg0 lists rl gv r Hrl Hacc Hr)
    as (rl' & gv' & r' & _ & _ & _ & _ & Hd).
  rewrite HPod in Hd. change (ToLower "Pod") with "pod" in Hd. fold rg in Hd.
  eexists. split; [exact Hd|]. split; [|split].
  - by apply ParseKind_direct.
  - by apply ParseKind_direct.
  - intros Hpods. by apply ParseKind_retry.
Qed.

Lemma C1_ParseKind_pod_forms_witness :
  let rg := (GetGVRs newResourceGetter ([coreList; appsList], None)).1 in
  exists d,
    gvktogvrSet rg !! "pod" = Some d
    /\ ParseKind rg "pod" = (d, None)
    /\ ParseKind rg "Pod" = (d, None)
    /\ (gvktogvrSet rg !! "pods" = None -> ParseKind rg "pods" = (d, None)).
Proof.
  apply (C1_ParseKind_pod_forms newResourceGetter [coreList; appsList]
           coreList (mkGV "" "v1") (mkAPIResource "pods" "Pod" true)).
  - apply list_elem_of_here.
  - reflexivity.
  - apply list_elem_of_here.
  - reflexivity.
Defined.

(** C1, as stated, fails.  With only the kind [Pod] discovered, ["Pods"]
    is an unknown kind although ["pod"] resolves; and with a second kind
    spelled [Pods] discovered, ["pods"] resolves to that kind's
    descriptor and not to the one of [Pod]. *)
Lemma C1_Pods_is_unknown_kind :
  (let rg := NewResourceGetter ([podList], None) in
   gvktogvrSet rg !! "pod" = Some podGVR
   /\ ParseKind rg "pod" = (podGVR, None)
   /\ ParseKind rg "Pods" = (zeroGVR, Some ErrUnknownKind))
  /\ (let rg := NewResourceGetter ([podList; podsKindList], None) in
      ParseKind rg "pod" = (podGVR, None)
      /\ ParseKind rg "pods" = (mkGVR "example.com" "v1" "podsets", None)).
Proof. vm_compute. repeat split. Qed.

(** Whatever [Singular] does to it, a name that is not a key, neither
    lower-cased nor in the singular as [Singular] spells it, is unknown:
    the keys are all lower-cased, the singular is not. *)
Lemma ParseKind_Pods_general `{Imports} rg :
  gvktogvrSet rg !! ToLower "Pods" = None ->
  gvktogvrSet rg !! Singular "Pods" = None ->
  ParseKind rg "Pods" = (zeroGVR, Some ErrUnknownKind).
Proof. apply ParseKind_unknown. Qed.

Lemma C2_GetGVRs_aborts_on_discovery_error_witness :
  GetGVRs newResourceGetter
    (Discovery.ServerPreferredResources
       (inr [Discovery.Discovered podList; Discovery.Failed "metrics.k8s.io/v1beta1"]))
  = (newResourceGetter, Some (ErrGroupDiscoveryFailed ["metrics.k8s.io/v1beta1"]))
  /\ (ParseKind (GetGVRs newResourceGetter ([podList; emptyList], None)).1 "Pod").2 = None.
Proof.
  split.
  - apply (proj1 (proj2 (C2_GetGVRs_aborts_on_discovery_error newResourceGetter))).
    reflexivity.
  - apply (proj2 (proj2 (proj2 (C2_GetGVRs_aborts_on_discovery_error newResourceGetter)))
             [podList; emptyList] podList (mkGV "" "v1") (mkAPIResource "pods" "Pod" true)).
    + apply list_elem_of_here.
    + reflexivity.
    + apply list_elem_of_here.
Defined.

(** C2, as stated, fails: one group of two fails, the client hands the
    list of the other group over together with the error, and the pass
    stores nothing, so that not even [pod] resolves afterwards. *)
Lemma C2_failed_group_aborts_pass :
  let resp :=
    Discovery.ServerPreferredResources
      (inr [Discovery.Discovered podList; Discovery.Failed "metrics.k8s.io/v1beta1"]) in
  resp = ([podList], Some (ErrGroupDiscoveryFailed ["metrics.k8s.io/v1beta1"]))
  /\ GetGVRs newResourceGetter resp
     = (newResourceGetter, Some (ErrGroupDiscoveryFailed ["metrics.k8s.io/v1beta1"]))
  /\ gvrs (NewResourceGetter resp) = []
  /\ ParseKind (NewResourceGetter resp) "pod" = (zeroGVR, Some ErrUnknownKind).
Proof. vm_compute. repeat split. Qed.

Lemma C3_ParseKind_direct_then_singular_witness :
  let rg := NewResourceGetter ([podList], None) in
  ParseKind rg "pods" = (podGVR, None)
  /\ ((ParseKind rg "Pods").2 <> None <->
      gvktogvrSet rg !! ToLower "Pods" = None /\ gvktogvrSet rg !! Singular "Pods" = None).
Proof.
  split.
  - apply (proj1 (proj2 (C3_ParseKind_direct_then_singular
                           (NewResourceGetter ([podList], None)) "pods")));
      reflexivity.
  - apply (proj1 (proj2 (proj2 (C3_ParseKind_direct_then_singular
                                  (NewResourceGetter ([podList], None)) "Pods")))).
Defined.

Lemma C4_GetGVRs_index_last_wins_witness :
  exists rl' gv' r',
    rl' ∈ [coreList; emptyList; malformedList; eventsList]
    /\ accepted rl' = Some gv' /\ r' ∈ APIResources rl'
    /\ ToLower (Kind r') = ToLower "Event"
    /\ gvktogvrSet
         (GetGVRs newResourceGetter
            ([coreList; emptyList; malformedList; eventsList], None)).1
         !! ToLower "Event"
       = Some (mkGVR (gvGroup gv') (gvVersion gv') (Name r')).
Proof.
  apply (proj1 (proj2 (proj2 (proj2
           (C4_GetGVRs_index_last_wins newResourceGetter
              [coreList; emptyList; malformedList; eventsList]))))
           coreList (mkGV "" "v1") (mkAPIResource "events" "Event" true)).
  - apply list_elem_of_here.
  - reflexivity.
  - apply list_elem_of_further, list_elem_of_here.
Defined.

(** C4, as stated, fails: [Event] is a kind of the core group and of
    [events.k8s.io]; both lists count, yet after the pass the index maps
    ["event"] to the descriptor of the second and no longer to the one
    of the first. *)
Lemma C4_core_event_overwritten :
  let rg := (GetGVRs newResourceGetter ([coreList; eventsList], None)).1 in
  accepted coreList = Some (mkGV "" "v1")
  /\ mkAPIResource "events" "Event" true ∈ APIResources coreList
  /\ gvktogvrSet rg !! ToLower "Event" = Some (mkGVR "events.k8s.io" "v1" "events")
  /\ gvktogvrSet rg !! ToLower "Event" <> Some (mkGVR "" "v1" "events").
Proof.
  cbn zeta. split; [reflexivity|]. split.
  { apply list_elem_of_further, list_elem_of_here. }
  split; [by vm_compute|]. vm_compute. discriminate.
Qed.

Lemma C6_own_descriptor_unless_overwritten_witness :
  gvktogvrSet (GetGVRs newResourceGetter ([] ++ coreList :: [appsList], None)).1
    !! ToLower "Pod"
  = Some (mkGVR "" "v1" "pods").
Proof.
  apply (C6_own_descriptor_unless_overwritten newResourceGetter [] coreList [appsList]
           (mkGV "" "v1") [] (mkAPIResource "pods" "Pod" true)
           [mkAPIResource "events" "Event" true]).
  - reflexivity.
  - reflexivity.
  - intros r' Hr'. apply list_elem_of_singleton in Hr'. subst r'. vm_compute. discriminate.
  - intros rl' r' Hrl' _ Hr'. apply list_elem_of_singleton in Hrl'. subst rl'.
    apply list_elem_of_singleton in Hr'. subst r'. vm_compute. discriminate.
Defined.

(** C6, as stated, fails: each group contributes its preferred version
    only, but [Ingress] is a kind of two groups, and the entry written
    for [extensions] is overwritten by the one for [networking.k8s.io]
    in the same pass. *)
Lemma C6_ingress_overwritten_across_groups :
  let rg := (GetGVRs newResourceGetter ([extensionsList; networkingList], None)).1 in
  gvrs rg = [mkGVR "extensions" "v1beta1" "ingresses";
             mkGVR "networking.k8s.io" "v1" "ingresses"]
  /\ gvktogvrSet rg !! ToLower "Ingress"
     = Some (mkGVR "networking.k8s.io" "v1" "ingresses")
  /\ gvktogvrSet rg !! ToLower "Ingress" <> Some (mkGVR "extensions" "v1beta1" "ingresses").
Proof.
  cbn zeta. split; [by vm_compute|]. split; [by vm_compute|].
  vm_compute. discriminate.
Qed.

End GetterRuns.

(** ** The watch cache under the drop-stale rule *)

Section WatchCacheFacts.
Import WatchCache.

Lemma Apply_update (c : cache) ev :
  is_update ev = true ->
  Apply c ev
  = match c !! key_of ev with
    | Some e =>
        if token e <? etoken ev
        then <[key_of ev := mkEntry (etoken ev) (epayload ev)]> c else c
    | None => <[key_of ev := mkEntry (etoken ev) (epayload ev)]> c
    end.
Proof. unfold Apply, perform, is_update. by destruct (etype ev). Qed.

(** Two update events commute unless they carry the same token for the
    same key. *)
Lemma Apply_update_comm (c : cache) a b :
  is_update a = true -> is_update b = true ->
  (key_of a, etoken a) <> (key_of b, etoken b) ->
  Apply (Apply c a) b = Apply (Apply c b) a.
Proof.
  intros Ha Hb Hne.
  rewrite (Apply_update c a Ha), (Apply_update c b Hb).
  destruct (decide (key_of a = key_of b)) as [Hk|Hk].
  - assert (etoken a <> etoken b) as Ht by congruence.
    rewrite <- Hk.
    destruct (c !! key_of a) as [e|] eqn:Hc.
    + destruct (Z.ltb_spec (token e) (etoken a)), (Z.ltb_spec (token e) (etoken b));
        rewrite ?(Apply_update _ a Ha), ?(Apply_update _ b Hb), <- ?Hk,
          ?lookup_insert_eq, ?Hc; cbn;
        repeat match goal with
               | |- context [?x <? ?y] => destruct (Z.ltb_spec x y); try lia
               end;
        rewrite ?insert_insert_eq; try done.
    + rewrite (Apply_update _ a Ha), (Apply_update _ b Hb), <- Hk,
        !lookup_insert_eq; cbn.
      destruct (Z.ltb_spec (etoken a) (etoken b)), (Z.ltb_spec (etoken b) (etoken a));
        rewrite ?insert_insert_eq; try done; lia.
  - destruct (c !! key_of a) as [ea|] eqn:Hca, (c !! key_of b) as [eb|] eqn:Hcb;
      repeat match goal with
             | |- context [if ?x <? ?y then _ else _] => destruct (Z.ltb_spec x y)
             end;
      rewrite ?(Apply_update _ a Ha), ?(Apply_update _ b Hb),
        ?lookup_insert_ne, ?Hca, ?Hcb by done;
      repeat match goal with
             | |- context [if ?x <? ?y then _ else _] =>
                 destruct (Z.ltb_spec x y); try lia
             end;
      try done; by apply insert_insert_ne.
Qed.

(** Order tolerance in general: any two orders of the same update
    events, no two of which carry the same token for the same key, leave
    the same cache. *)
Lemma ApplyAll_permutation (evs evs' : list event) :
  evs ≡ₚ evs' ->
  forall c : cache,
  Forall (fun ev => is_update ev = true) evs ->
  NoDup (map (fun ev => (key_of ev, etoken ev)) evs) ->
  ApplyAll c evs = ApplyAll c evs'.
Proof.
  induction 1 as [|x l l' Hp IH|x y l|l l' l'' Hp1 IH1 Hp2 IH2];
    intros c Hupd Hnd.
  - done.
  - cbn in *. apply Forall_cons in Hupd as [_ Hupd].
    apply NoDup_cons in Hnd as [_ Hnd]. by apply IH.
  - cbn in *. apply Forall_cons in Hupd as [Hy Hupd].
    apply Forall_cons in Hupd as [Hx _].
    apply NoDup_cons in Hnd as [Hnd _].
    rewrite (Apply_update_comm c y x); [done..|].
    intros Heq. apply Hnd. rewrite Heq. apply list_elem_of_here.
  - rewrite IH1 by done. apply IH2.
    + by rewrite <- Hp1.
    + pose proof (Permutation_map (fun ev => (key_of ev, etoken ev)) Hp1) as Hp.
      by rewrite <- Hp.
Qed.

(** An entry is given up only for an event on its key with a strictly
    greater token. *)
Lemma Apply_keeps_or_newer (c : cache) ev k e :
  c !! k = Some e ->
  Apply c ev !! k = Some e \/ (key_of ev = k /\ token e < etoken ev).
Proof.
  intros Hc. unfold Apply, perform.
  destruct (decide (key_of ev = k)) as [->|Hk].
  - rewrite Hc. destruct (Z.ltb_spec (token e) (etoken ev)); [by right|by left].
  - left. destruct (c !! key_of ev) as [e'|];
      [destruct (token e' <? etoken ev)|]; try done;
      destruct (etype ev); by rewrite ?lookup_insert_ne, ?lookup_delete_ne.
Qed.

Lemma Apply_update_monotone (c : cache) ev k e :
  is_update ev = true -> c !! k = Some e ->
  exists e', Apply c ev !! k = Some e' /\ (e' = e \/ token e < token e').
Proof.
  intros Hu Hc. rewrite (Apply_update c ev Hu).
  destruct (decide (key_of ev = k)) as [->|Hk].
  - rewrite Hc. destruct (Z.ltb_spec (token e) (etoken ev)).
    + eexists. rewrite lookup_insert_eq. split; [done|]. by right.
    + exists e. by split; [|left].
  - exists e. split; [|by left].
    destruct (c !! key_of ev) as [e'|];
      [destruct (token e' <? etoken ev)|]; by rewrite ?lookup_insert_ne.
Qed.

(** C5: update events with the tokens 5, 3, 7, 6, applied in this order
    to the empty cache, leave the cache that the same events leave when
    applied in the order 3, 5, 6, 7; and an update event never takes an
    entry back to a smaller token: the entry stays, or is replaced by
    one with a strictly greater token; whatever the event, an entry is
    given up only for an event on its key with a strictly greater
    token. *)
Theorem C5_drop_stale_order_tolerant
    (a5 a3 a7 a6 : bool) (k5 k3 k7 k6 : key) (p5 p3 p7 p6 : string) :
  let e5 := update a5 k5 5 p5 in
  let e3 := update a3 k3 3 p3 in
  let e7 := update a7 k7 7 p7 in
  let e6 := update a6 k6 6 p6 in
  ApplyAll ∅ [e5; e3; e7; e6] = ApplyAll ∅ [e3; e5; e6; e7]
  /\ (forall (c : cache) ev k e,
        is_update ev = true -> c !! k = Some e ->
        exists e', Apply c ev !! k = Some e'
                   /\ token e <= token e' /\ (e' = e \/ token e < token e'))
  /\ (forall (c : cache) ev k e,
        c !! k = Some e ->
        Apply c ev !! k = Some e \/ (key_of ev = k /\ token e < etoken ev)).
Proof.
  intros e5 e3 e7 e6. split; [|split; [|apply Apply_keeps_or_newer]].
  - apply ApplyAll_permutation.
    + transitivity [e3; e5; e7; e6]; [apply perm_swap|].
      do 2 apply perm_skip. apply perm_swap.
    + subst e5 e3 e7 e6. destruct a5, a3, a7, a6; repeat constructor.
    + cbn. repeat (apply NoDup_cons; split;
        [rewrite ?not_elem_of_cons; repeat split;
           try (intros [= ? ?]; lia); apply not_elem_of_nil|]).
      apply NoDup_nil_2.
  - intros c ev k e Hu Hc.
    destruct (Apply_update_monotone c ev k e Hu Hc) as (e' & He' & Hor).
    exists e'. repeat split; try done. destruct Hor as [->|?]; lia.
Qed.

Lemma C5_drop_stale_order_tolerant_witness :
  ApplyAll ∅ [update true ("default", "a") 5 "rev5"; update false ("default", "a") 3 "rev3";
              update false ("default", "a") 7 "rev7"; update false ("default", "a") 6 "rev6"]
  = ({[ ("default", "a") := mkEntry 7 "rev7" ]} : cache)
  /\ exists e', Apply {[ ("default", "a") := mkEntry 7 "rev7" ]}
                  (update false ("default", "a") 6 "rev6") !! ("default", "a") = Some e'
                /\ 7 <= token e'.
Proof.
  split.
  - rewrite (proj1 (C5_drop_stale_order_tolerant true false false false
                      ("default", "a") ("default", "a") ("default", "a") ("default", "a")
                      "rev5" "rev3" "rev7" "rev6")).
    by vm_compute.
  - destruct (proj1 (proj2 (C5_drop_stale_order_tolerant true false false false
                      ("default", "a") ("default", "a") ("default", "a") ("default", "a")
                      "rev5" "rev3" "rev7" "rev6"))
                {[ ("default", "a") := mkEntry 7 "rev7" ]}
                (update false ("default", "a") 6 "rev6") ("default", "a")
                (mkEntry 7 "rev7") eq_refl ltac:(by vm_compute)) as (e' & He' & Hle & _).
    exists e'. by split.
Defined.

End WatchCacheFacts.

(** ** The stores *)

Section StoreFacts.
Import Gorm.

Lemma filter_none_length (sel : row -> bool) (t : table) :
  (forall r, r ∈ t -> sel r = false) ->
  length (filter (fun r => sel r = true) t) = 0%nat.
Proof.
  induction t as [|r t IH]; intros Hall; [done|].
  rewrite filter_cons_False.
  - apply IH. intros r' Hr'. apply Hall. by apply list_elem_of_further.
  - rewrite (Hall r); [done|]. apply list_elem_of_here.
Qed.

Lemma filter_some_length (sel : row -> bool) (t : table) r :
  r ∈ t -> sel r = true ->
  (0 < length (filter (fun r => sel r = true) t))%nat.
Proof.
  intros Hr Hsel.
  assert (r ∈ filter (fun r => sel r = true) t) as Hin by by apply list_elem_of_filter.
  destruct (filter _ t); [by apply elem_of_nil in Hin|cbn; lia].
Qed.

Lemma map_unselected (sel : row -> bool) (f : row -> row) (t : table) :
  (forall r, r ∈ t -> sel r = false) ->
  map (fun r => if sel r then f r else r) t = t.
Proof.
  induction t as [|r t IH]; intros Hall; [done|]. cbn.
  rewrite (Hall r) by apply list_elem_of_here. f_equal.
  apply IH. intros r' Hr'. apply Hall. by apply list_elem_of_further.
Qed.

(** [Updates] when the driver does not fail: no row selected, nothing
    changes and no row is affected; otherwise some row is affected. *)
Lemma Updates_none sel updates (t : table) :
  (forall r, r ∈ t -> sel r = false) ->
  Updates sel updates None t = mkResult t 0 None.
Proof.
  intros Hall. unfold Updates.
  by rewrite map_unselected, filter_none_length.
Qed.

Lemma Updates_some sel updates (t : table) r :
  r ∈ t -> sel r = true ->
  0 < RowsAffected (Updates sel updates None t)
  /\ Table (Updates sel updates None t)
     = map (fun r => if sel r then updates ∪ r else r) t
  /\ Error (Updates sel updates None t) = None.
Proof.
  intros Hr Hsel. cbn. repeat split.
  pose proof (filter_some_length sel t r Hr Hsel). lia.
Qed.

Lemma where_id_version_column id rv r :
  where_id_version id rv r = true ->
  int_column "id" r = Some id /\ int_column "resource_version" r = Some rv.
Proof.
  unfold where_id_version, column_is. intros [H1 H2]%andb_true_iff.
  destruct (int_column "id" r) as [z1|]; [|done].
  destruct (int_column "resource_version" r) as [z2|]; [|done].
  apply Z.eqb_eq in H1, H2. by subst.
Qed.

Lemma Int64_add_one rv :
  Int64.min_int <= rv < Int64.max_int -> Int64.add rv 1 = rv + 1.
Proof.
  unfold Int64.add, Int64.wrap, Int64.min_int, Int64.max_int. intros Hrv.
  rewrite Z.mod_small; lia.
Qed.

(** The row an update writes over a selected row. *)
Lemma updated_row now rv updates (r : row) :
  let r' := system_columns now rv updates ∪ r in
  int_column "resource_version" r' = Some (Int64.add rv 1)
  /\ r' !! "gmt_modified" = Some (VTime now)
  /\ (forall col, col <> "resource_version" -> col <> "gmt_modified" ->
        r' !! col = (updates ∪ r) !! col).
Proof.
  cbn. unfold system_columns, int_column. repeat split.
  - by rewrite lookup_union_l', lookup_insert_eq by (by rewrite lookup_insert_eq).
  - rewrite lookup_union_l'; by rewrite lookup_insert_ne, lookup_insert_eq.
  - intros col H1 H2. rewrite !lookup_union.
    by rewrite !lookup_insert_ne.
Qed.

Lemma find_absent (sel : row -> bool) (t : table) :
  (forall r, r ∈ t -> sel r = false) -> find sel t = None.
Proof.
  induction t as [|r t IH]; intros Hall; [done|]. cbn.
  rewrite (Hall r) by apply list_elem_of_here.
  apply IH. intros r' Hr'. apply Hall. by apply list_elem_of_further.
Qed.

Lemma find_unique (sel : row -> bool) (l1 l2 : table) r :
  sel r = true -> (forall r', r' ∈ l1 -> sel r' = false) ->
  find sel (l1 ++ r :: l2) = Some r.
Proof.
  intros Hr. induction l1 as [|r1 l1 IH]; intros Hall; cbn.
  - by rewrite Hr.
  - rewrite (Hall r1) by apply list_elem_of_here.
    apply IH. intros r' Hr'. apply Hall. by apply list_elem_of_further.
Qed.

Lemma filter_unselected (sel : row -> bool) (t : table) :
  (forall r, r ∈ t -> sel r = false) -> filter (fun r => sel r = false) t = t.
Proof.
  induction t as [|r t IH]; intros Hall; [done|].
  rewrite filter_cons_True by (apply Hall, list_elem_of_here). f_equal.
  apply IH. intros r' Hr'. apply Hall. by apply list_elem_of_further.
Qed.

End StoreFacts.

Section StoreClaims.
Import Gorm.

Lemma User_Update_table db fault now id rv updates :
  (User.Update db fault now id rv updates).1
  = (Tenant.Update db fault now id rv updates).1.
Proof.
  unfold User.Update, Tenant.Update.
  destruct (Error _); [done|]. by destruct (RowsAffected _ =? 0).
Qed.

Lemma Update_table db now id rv updates :
  (Tenant.Update db None now id rv updates).1
  = map (fun r => if where_id_version id rv r
                  then system_columns now rv updates ∪ r else r) db.
Proof. unfold Tenant.Update. cbn. by destruct (_ =? 0). Qed.

Lemma Update_failed db e now id rv updates :
  Tenant.Update db (Some e) now id rv updates = (db, Some e)
  /\ User.Update db (Some e) now id rv updates = (db, Some e).
Proof. done. Qed.

Lemma Update_no_match db now id rv updates :
  (forall r, r ∈ db -> where_id_version id rv r = false) ->
  Tenant.Update db None now id rv updates = (db, Some ErrRecordNotFound)
  /\ User.Update db None now id rv updates = (db, Some ErrRecordNotUpdate).
Proof.
  intros Hall. unfold Tenant.Update, User.Update.
  by rewrite (Updates_none _ _ _ Hall).
Qed.

Lemma Update_match db now id rv updates r :
  r ∈ db -> where_id_version id rv r = true ->
  let db' := map (fun r => if where_id_version id rv r
                           then system_columns now rv updates ∪ r else r) db in
  Tenant.Update db None now id rv updates = (db', None)
  /\ User.Update db None now id rv updates = (db', None).
Proof.
  intros Hr Hsel db'. unfold Tenant.Update, User.Update.
  destruct (Updates_some _ (system_columns now rv updates) _ _ Hr Hsel)
    as (Hpos & Htab & Herr).
  rewrite Herr, Htab.
  destruct (Z.eqb_spec (RowsAffected
    (Updates (where_id_version id rv) (system_columns now rv updates) None db)) 0);
    [lia|done].
Qed.

(** C8 (as amended): for a resource version below the largest int64,
    [Update] of the tenant and of the user store changes a record only
    if its id and stored resource version are the ones supplied; such a
    record gets the caller's columns and the version
    [resourceVersion + 1]; when no record has this id and version no
    record changes and an error is returned; so a stored version is
    left as it is or grows by exactly one. *)
Theorem C8_Update_optimistic_lock (db : table) (now id rv : Z)
    (updates : gmap string value) :
  Int64.min_int <= rv < Int64.max_int ->
  ((forall r, r ∈ db -> where_id_version id rv r = false) ->
     Tenant.Update db None now id rv updates = (db, Some ErrRecordNotFound)
     /\ User.Update db None now id rv updates = (db, Some ErrRecordNotUpdate))
  /\ ((exists r, r ∈ db /\ where_id_version id rv r = true) ->
      exists db',
        Tenant.Update db None now id rv updates = (db', None)
        /\ User.Update db None now id rv updates = (db', None)
        /\ forall i r, db !! i = Some r ->
             if where_id_version id rv r
             then exists r',
                    db' !! i = Some r'
                    /\ int_column "resource_version" r = Some rv
                    /\ int_column "resource_version" r' = Some (rv + 1)
                    /\ (forall col, col <> "resource_version" -> col <> "gmt_modified" ->
                          r' !! col = (updates ∪ r) !! col)
             else db' !! i = Some r)
  /\ (forall fault i r v,
        db !! i = Some r -> int_column "resource_version" r = Some v ->
        exists r' v',
          (Tenant.Update db fault now id rv updates).1 !! i = Some r'
          /\ (User.Update db fault now id rv updates).1 !! i = Some r'
          /\ int_column "resource_version" r' = Some v'
          /\ (v' = v \/ v' = v + 1)).
Proof.
  intros Hrv.
  assert (forall i r, db !! i = Some r ->
            map (fun r => if where_id_version id rv r
                          then system_columns now rv updates ∪ r else r) db !! i
            = Some (if where_id_version id rv r
                    then system_columns now rv updates ∪ r else r)) as Hrow.
  { intros i r Hi.
    change (map ?f db) with (f <$> db). by rewrite list_lookup_fmap, Hi. }
  split; [apply Update_no_match|]. split.
  - intros (r0 & Hr0 & Hsel0).
    destruct (Update_match db now id rv updates r0 Hr0 Hsel0) as [HT HU].
    eexists. split; [exact HT|]. split; [exact HU|].
    intros i r Hi. rewrite (Hrow i r Hi).
    destruct (where_id_version id rv r) eqn:Hsel; [|done].
    eexists. split; [done|].
    destruct (where_id_version_column _ _ _ Hsel) as [_ Hv].
    destruct (updated_row now rv updates r) as (Hv' & _ & Hcols).
    rewrite Int64_add_one in Hv' by done. done.
  - intros fault i r v Hi Hv. rewrite User_Update_table.
    destruct fault as [e|].
    { exists r, v. cbn. by repeat split; [..|left]. }
    rewrite Update_table, (Hrow i r Hi).
    destruct (where_id_version id rv r) eqn:Hsel.
    + destruct (where_id_version_column _ _ _ Hsel) as [_ Hv0].
      destruct (updated_row now rv updates r) as (Hv' & _ & _).
      rewrite Int64_add_one in Hv' by done.
      eexists _, (rv + 1). repeat split; [done|]. right. congruence.
    + exists r, v. by repeat split; [|left].
Qed.

(** C9: when no tenant has the id, [Get] returns [(nil, nil)], and
    [Delete] returns [(nil, nil)] and leaves the table as it is; when a
    tenant has the id, [Get] returns it and [Delete] returns it and
    removes it and nothing else from the table. *)
Theorem C9_tenant_Get_Delete (tid : Z) :
  (forall db : table,
     (forall r, r ∈ db -> where_id tid r = false) ->
     Tenant.Get db None tid = (None, None)
     /\ forall fault, Tenant.Delete db None fault tid = (db, (None, None)))
  /\ (forall (l1 l2 : table) (object : row),
        where_id tid object = true ->
        (forall r, r ∈ l1 ++ l2 -> where_id tid r = false) ->
        Tenant.Get (l1 ++ object :: l2) None tid = (Some object, None)
        /\ Tenant.Delete (l1 ++ object :: l2) None None tid
           = (l1 ++ l2, (Some object, None))).
Proof.
  split.
  - intros db Hall.
    assert (Tenant.Get db None tid = (None, None)) as HG.
    { unfold Tenant.Get, First. by rewrite (find_absent _ _ Hall). }
    split; [done|]. intros fault. unfold Tenant.Delete. by rewrite HG.
  - intros l1 l2 object Hobj Hall.
    assert (Tenant.Get (l1 ++ object :: l2) None tid = (Some object, None)) as HG.
    { unfold Tenant.Get, First. rewrite find_unique; [done..|].
      intros r Hr. apply Hall, elem_of_app. by left. }
    split; [done|]. unfold Tenant.Delete. rewrite HG. cbn.
    rewrite filter_app, filter_cons_False by (by rewrite Hobj).
    rewrite <- filter_app, filter_unselected; done.
Qed.

End StoreClaims.

Section StoreRuns.
Import Gorm Sample.

Lemma C8_Update_optimistic_lock_witness :
  exists db',
    Tenant.Update [record 1 3 "acme"; record 2 3 "beta"] None 7 1 3
      {["name" := VString "acme2"]} = (db', None)
    /\ User.Update [record 1 3 "acme"; record 2 3 "beta"] None 7 1 3
         {["name" := VString "acme2"]} = (db', None).
Proof.
  destruct (C8_Update_optimistic_lock [record 1 3 "acme"; record 2 3 "beta"] 7 1 3
              {["name" := VString "acme2"]}) as (_ & Hmatch & _).
  - unfold Int64.min_int, Int64.max_int. lia.
  - destruct Hmatch as (db' & HT & HU & _).
    + exists (record 1 3 "acme"). split; [apply list_elem_of_here|reflexivity].
    + exists db'. by split.
Defined.

(** C8, as stated, fails at the largest int64: the update goes through,
    and the stored version, [resourceVersion + 1] in int64, is the
    smallest int64, far below the version it replaces. *)
Lemma C8_version_wraps_at_max_int64 :
  exists r',
    Tenant.Update [record 1 Int64.max_int "acme"] None 7 1 Int64.max_int ∅ = ([r'], None)
    /\ int_column "resource_version" (record 1 Int64.max_int "acme") = Some Int64.max_int
    /\ int_column "resource_version" r' = Some Int64.min_int
    /\ Int64.min_int < Int64.max_int.
Proof. eexists. by vm_compute. Qed.

Lemma C9_tenant_Get_Delete_witness :
  Tenant.Get [record 1 0 "acme"; record 3 0 "beta"] None 2 = (None, None)
  /\ Tenant.Delete ([record 1 0 "acme"] ++ record 2 5 "corp" :: [record 3 0 "beta"]) None None 2
     = ([record 1 0 "acme"] ++ [record 3 0 "beta"], (Some (record 2 5 "corp"), None)).
Proof.
  split.
  - apply (proj1 (C9_tenant_Get_Delete 2)).
    intros r Hr. apply elem_of_cons in Hr as [->|Hr]; [reflexivity|].
    apply list_elem_of_singleton in Hr as ->. reflexivity.
  - apply (proj2 (C9_tenant_Get_Delete 2)); [reflexivity|].
    intros r Hr. apply elem_of_cons in Hr as [->|Hr]; [reflexivity|].
    apply list_elem_of_singleton in Hr as ->. reflexivity.
Defined.

End StoreRuns.

(** ** The kubeconfig service without a client *)

Section CoreClaims.
Import Core.

(** C10: with a nil client each of [Create], [Update], [Delete], [Get]
    and [List] is the program that returns [clientError] at once; run
    under any handler in any world it makes no call, remote, database or
    local, and leaves the world, the record of calls and the caller's
    object as they were. *)
Theorem C10_nil_client_returns_clientError {W : Type} (h : handler W) (w : W)
    (trace : list callKind) (cloud : string) (kubeConfig : KubeConfig)
    (kid : Z) (cloudName : string) :
  let c := NewKubeConfigs None cloud in
  (Create c kubeConfig = Ret (kubeConfig, (None, Some clientError))
   /\ Update c kid = Ret (None, Some clientError)
   /\ Delete c kid = Ret (Some clientError)
   /\ Get c kid = Ret (None, Some clientError)
   /\ List c cloudName = Ret ([], Some clientError))
  /\ (run h (Create c kubeConfig) w trace
       = (Returned (kubeConfig, (None, Some clientError)), w, trace)
      /\ run h (Update c kid) w trace = (Returned (None, Some clientError), w, trace)
      /\ run h (Delete c kid) w trace = (Returned (Some clientError), w, trace)
      /\ run h (Get c kid) w trace = (Returned (None, Some clientError), w, trace)
      /\ run h (List c cloudName) w trace = (Returned ([], Some clientError), w, trace)).
Proof. cbn. repeat split. Qed.

(** With a client the first thing each operation does is a call: to the
    cluster for [Create], to the database for the others. *)
Lemma with_client_first_call (cs : Clientset) (cloud : string)
    (kubeConfig : KubeConfig) (kid : Z) (cloudName : string) :
  let c := NewKubeConfigs (Some cs) cloud in
  (exists k, Create c kubeConfig
             = Do (ServiceAccountsCreate namespace (ServiceAccount kubeConfig)) k)
  /\ (exists k, Update c kid = Do (DaoGet kid) k)
  /\ (exists k, Delete c kid = Do (DaoGet kid) k)
  /\ (exists k, Get c kid = Do (DaoGet kid) k)
  /\ (exists k, List c cloudName = Do (DaoList cloudName) k).
Proof. cbn. repeat split; eexists; reflexivity. Qed.

End CoreClaims.
Section CoreRuns.
Import Core Sample.

(** A run with a client, for comparison: [Create] calls the cluster
    three times, encodes the certificate, asks for the token, marshals
    and encrypts the document and writes the row. *)
Lemma Create_with_client_calls :
  (run quiet (Create (NewKubeConfigs (Some "c1") "c1") (mkKubeConfig "" "sa" "admin" "" ""))
     tt []).2
  = [Remote; Remote; Remote; Local; Remote; Local; Local; Database].
Proof. reflexivity. Qed.

Lemma Update_without_row_fails :
  run quiet (Update (NewKubeConfigs (Some "c1") "c1") 3) tt []
  = (Returned (None, Some ErrRecordNotFound), tt, [Database; Local]).
Proof. reflexivity. Qed.

End CoreRuns.

(** ** More on the stores *)

Section StoreMoreFacts.
Import Gorm GormRows.

Lemma Int64_add_one_ne rv : Int64.in_range rv -> Int64.add rv 1 <> rv.
Proof.
  unfold Int64.in_range, Int64.add, Int64.wrap, Int64.min_int, Int64.max_int.
  intros Hrv.
  destruct (decide (rv = 2 ^ 63 - 1)) as [->|Hne]; [by vm_compute|].
  rewrite Z.mod_small; lia.
Qed.

Lemma column_is_true col z (r : row) :
  column_is col z r = true <-> int_column col r = Some z.
Proof.
  unfold column_is. destruct (int_column col r) as [z'|]; [|done].
  rewrite Z.eqb_eq. split; congruence.
Qed.

Lemma where_id_true id (r : row) : where_id id r = true <-> int_column "id" r = Some id.
Proof. apply column_is_true. Qed.

Lemma where_id_other id id' (r : row) :
  id <> id' -> where_id id' r = true -> where_id id r = false.
Proof.
  intros Hne Hr. apply where_id_true in Hr. unfold where_id, column_is.
  rewrite Hr. by apply Z.eqb_neq.
Qed.

(** A row written by [Update] no longer carries the version asked for. *)
Lemma updated_row_unselected now id rv updates (r : row) :
  Int64.in_range rv ->
  where_id_version id rv (system_columns now rv updates ∪ r) = false.
Proof.
  intros Hrv. unfold where_id_version.
  destruct (updated_row now rv updates r) as (Hv & _ & _). cbn in Hv.
  assert (column_is "resource_version" rv (system_columns now rv updates ∪ r) = false)
    as ->; [|by rewrite andb_false_r].
  unfold column_is. rewrite Hv. apply Z.eqb_neq. by apply Int64_add_one_ne.
Qed.

Lemma updated_row_id now rv updates (r : row) :
  updates !! "id" = None ->
  (system_columns now rv updates ∪ r) !! "id" = r !! "id".
Proof.
  intros Hid. destruct (updated_row now rv updates r) as (_ & _ & Hcols).
  cbn in Hcols. rewrite Hcols by done. by rewrite lookup_union_r.
Qed.

Lemma elem_of_map_inv {A B : Type} (f : A -> B) (l : list A) (y : B) :
  y ∈ map f l -> exists x, y = f x /\ x ∈ l.
Proof. intros Hy. by apply (list_elem_of_fmap f l y) in Hy. Qed.

Lemma find_filter_other (sel sel' : row -> bool) (t : table) :
  (forall r, sel' r = true -> sel r = false) ->
  find sel' (filter (fun r => sel r = false) t) = find sel' t.
Proof.
  intros Hother. induction t as [|r t IH]; [done|].
  destruct (sel r) eqn:Hsel.
  - rewrite filter_cons_False by (by rewrite Hsel). cbn.
    destruct (sel' r) eqn:Hsel'; [|done].
    rewrite (Hother r Hsel') in Hsel. done.
  - rewrite filter_cons_True by done. cbn. by rewrite IH.
Qed.

Lemma find_app_absent (sel : row -> bool) (t : table) (r : row) :
  sel r = false -> find sel (t ++ [r]) = find sel t.
Proof.
  intros Hr. induction t as [|r' t IH]; cbn; [by rewrite Hr|].
  by destruct (sel r').
Qed.

Lemma existsb_absent (sel : row -> bool) (t : table) :
  (forall r, r ∈ t -> sel r = false) -> existsb sel t = false.
Proof.
  induction t as [|r t IH]; intros Hall; [done|]. cbn.
  rewrite (Hall r) by apply list_elem_of_here. apply IH.
  intros r' Hr'. apply Hall. by apply list_elem_of_further.
Qed.

Lemma existsb_present (sel : row -> bool) (t : table) r :
  r ∈ t -> sel r = true -> existsb sel t = true.
Proof.
  intros Hr Hsel. apply existsb_exists. exists r. by rewrite <- list_elem_of_In.
Qed.

Lemma primary_key_stamp now object assigned :
  primary_key (stamp now object) assigned = primary_key object assigned.
Proof.
  unfold primary_key, stamp, int_column. by rewrite !lookup_insert_ne.
Qed.

End StoreMoreFacts.

Section StoreMoreClaims.
Import Gorm GormRows.

(** X6: the optimistic lock rejects a lost update.  Once an [Update]
    with a resource version has gone through, a second [Update] with the
    same id and the same, now stale, version changes nothing and returns
    the store's not-found (tenant) or not-updated (user) error. *)
Theorem Update_stale_version_rejected (db : table) (now now' id rv : Z)
    (updates updates' : gmap string value) :
  Int64.in_range rv ->
  (exists r, r ∈ db /\ where_id_version id rv r = true) ->
  exists db1,
    Tenant.Update db None now id rv updates = (db1, None)
    /\ User.Update db None now id rv updates = (db1, None)
    /\ Tenant.Update db1 None now' id rv updates' = (db1, Some ErrRecordNotFound)
    /\ User.Update db1 None now' id rv updates' = (db1, Some ErrRecordNotUpdate).
Proof.
  intros Hrv (r0 & Hr0 & Hsel0).
  destruct (Update_match db now id rv updates r0 Hr0 Hsel0) as [HT HU].
  eexists. split; [exact HT|]. split; [exact HU|].
  apply Update_no_match. intros r Hr.
  apply elem_of_map_inv in Hr as (r1 & -> & _).
  destruct (where_id_version id rv r1) eqn:Hsel; [|done].
  by apply updated_row_unselected.
Qed.

Lemma Update_stale_version_rejected_witness :
  exists db1,
    Tenant.Update [Sample.record 1 3 "acme"] None 7 1 3 ∅ = (db1, None)
    /\ Tenant.Update db1 None 8 1 3 ∅ = (db1, Some ErrRecordNotFound).
Proof.
  destruct (Update_stale_version_rejected [Sample.record 1 3 "acme"] 7 8 1 3 ∅ ∅)
    as (db1 & H1 & _ & H2 & _).
  - unfold Int64.in_range, Int64.min_int, Int64.max_int. lia.
  - exists (Sample.record 1 3 "acme"). split; [apply list_elem_of_here|reflexivity].
  - exists db1. by split.
Defined.

(** X7: after an [Update] at version [rv] that did not touch the id
    column, the records it wrote are updated again by an [Update] at
    version [rv + 1], and then carry version [rv + 2]. *)
Theorem Update_retry_with_new_version (db : table) (now now' id rv : Z)
    (updates updates' : gmap string value) :
  Int64.min_int <= rv -> rv + 1 < Int64.max_int ->
  updates !! "id" = None ->
  (exists r, r ∈ db /\ where_id_version id rv r = true) ->
  exists db1 db2,
    Tenant.Update db None now id rv updates = (db1, None)
    /\ Tenant.Update db1 None now' id (rv + 1) updates' = (db2, None)
    /\ forall i r, db !! i = Some r -> where_id_version id rv r = true ->
         exists r2, db2 !! i = Some r2
                    /\ int_column "resource_version" r2 = Some (rv + 2).
Proof.
  intros Hlo Hhi Hid (r0 & Hr0 & Hsel0).
  set (f := fun now rv updates (r : row) =>
              if where_id_version id rv r then system_columns now rv updates ∪ r else r).
  assert (forall r, where_id_version id rv r = true ->
            where_id_version id (rv + 1) (f now rv updates r) = true) as Hnext.
  { intros r Hsel. unfold f. rewrite Hsel.
    destruct (where_id_version_column _ _ _ Hsel) as [Hi _].
    destruct (updated_row now rv updates r) as (Hv & _ & _). cbn in Hv.
    rewrite Int64_add_one in Hv by lia.
    unfold where_id_version. apply andb_true_iff. split; apply column_is_true; [|done].
    unfold int_column in *. by rewrite updated_row_id. }
  destruct (Update_match db now id rv updates r0 Hr0 Hsel0) as [HT _].
  destruct (Update_match (map (f now rv updates) db) now' id (rv + 1) updates'
              (f now rv updates r0)) as [HT2 _].
  { by apply (list_elem_of_fmap_2 (f now rv updates)). }
  { by apply Hnext. }
  eexists _, _. split; [exact HT|]. split; [exact HT2|].
  intros i r Hi Hsel.
  change (map ?g (map ?h db)) with (g <$> (h <$> db)).
  rewrite !list_lookup_fmap, Hi. cbn. rewrite (Hnext r Hsel).
  eexists. split; [done|].
  destruct (updated_row now' (rv + 1) updates' (f now rv updates r)) as (Hv & _ & _).
  cbn in Hv. rewrite Int64_add_one in Hv by lia.
  rewrite Hv. f_equal. lia.
Qed.

Lemma Update_retry_with_new_version_witness :
  exists db1 db2,
    Tenant.Update [Sample.record 1 3 "acme"] None 7 1 3 ∅ = (db1, None)
    /\ Tenant.Update db1 None 8 1 (3 + 1) ∅ = (db2, None).
Proof.
  destruct (Update_retry_with_new_version [Sample.record 1 3 "acme"] 7 8 1 3 ∅ ∅)
    as (db1 & db2 & H1 & H2 & _).
  - unfold Int64.min_int. lia.
  - unfold Int64.max_int. lia.
  - reflexivity.
  - exists (Sample.record 1 3 "acme"). split; [apply list_elem_of_here|reflexivity].
  - by exists db1, db2.
Defined.

(** X8: [Update] neither adds nor removes rows, and when the caller's
    map has no [id] key it leaves the id column of every row as it is,
    whether the statement matches, misses or fails. *)
Theorem Update_keeps_ids (db : table) (fault : option error) (now id rv : Z)
    (updates : gmap string value) :
  updates !! "id" = None ->
  let db' := (Tenant.Update db fault now id rv updates).1 in
  (User.Update db fault now id rv updates).1 = db'
  /\ length db' = length db
  /\ map (fun r : row => r !! "id") db' = map (fun r : row => r !! "id") db.
Proof.
  intros Hid db'. split; [apply User_Update_table|]. subst db'.
  destruct fault as [e|]; [done|]. rewrite Update_table.
  split; [by rewrite length_map|].
  rewrite map_map. apply map_ext. intros r.
  destruct (where_id_version id rv r); [|done]. by apply updated_row_id.
Qed.

Lemma Update_keeps_ids_witness :
  map (fun r : row => r !! "id")
      (Tenant.Update [Sample.record 1 3 "acme"; Sample.record 2 3 "beta"] None 7 1 3
         {["name" := VString "acme2"]}).1
  = map (fun r : row => r !! "id") [Sample.record 1 3 "acme"; Sample.record 2 3 "beta"].
Proof.
  apply (Update_keeps_ids [Sample.record 1 3 "acme"; Sample.record 2 3 "beta"] None 7 1 3
           {["name" := VString "acme2"]}).
  reflexivity.
Defined.

(** X9: [tenant.Delete] is idempotent.  After a [Delete] that the driver
    does not fail, [Get] of the id returns [(nil, nil)], a second
    [Delete] returns [(nil, nil)] and leaves the table, and [Get] of any
    other id returns what it returned before. *)
Theorem tenant_Delete_idempotent (db : table) (tid : Z) :
  let db1 := (Tenant.Delete db None None tid).1 in
  Tenant.Get db1 None tid = (None, None)
  /\ (forall fault, Tenant.Delete db1 None fault tid = (db1, (None, None)))
  /\ (forall tid', tid' <> tid -> Tenant.Get db1 None tid' = Tenant.Get db None tid').
Proof.
  intros db1.
  assert (db1 = filter (fun r => where_id tid r = false) db) as Hdb1.
  { subst db1. unfold Tenant.Delete, Tenant.Get, First.
    destruct (find (where_id tid) db) as [r|] eqn:Hfind; cbn; [done|].
    rewrite filter_unselected; [done|].
    intros r Hr. apply (find_none _ _ Hfind). by apply list_elem_of_In. }
  assert (forall r, r ∈ db1 -> where_id tid r = false) as Hnone.
  { intros r Hr. rewrite Hdb1 in Hr. by apply list_elem_of_filter in Hr as [? _]. }
  assert (Tenant.Get db1 None tid = (None, None)) as HG.
  { unfold Tenant.Get, First. by rewrite (find_absent _ _ Hnone). }
  split; [done|]. split.
  - intros fault. unfold Tenant.Delete. by rewrite HG.
  - intros tid' Hne. unfold Tenant.Get, First. rewrite Hdb1.
    rewrite find_filter_other; [done|].
    intros r Hr. by apply (where_id_other tid tid').
Qed.

(** X10: [tenant.Create] then [Get].  When no row has the key of the new
    row, [Create] appends the row, stamped with the time of the call in
    both time columns, and returns it; [Get] of that key then returns
    the same row, and [Get] of any other id what it returned before.
    When the key is taken, [Create] returns an error and no object and
    the table is unchanged. *)
Theorem tenant_Create_then_Get (db : table) (now assigned : Z) (object : row) :
  let id := primary_key object assigned in
  let stored := <["id" := VInt id]> (stamp now object) in
  ((forall r, r ∈ db -> where_id id r = false) ->
     TenantOps.Create db None now assigned object = (db ++ [stored], (Some stored, None))
     /\ Tenant.Get (db ++ [stored]) None id = (Some stored, None)
     /\ stored !! "gmt_create" = Some (VTime now)
     /\ stored !! "gmt_modified" = Some (VTime now)
     /\ (forall tid', tid' <> id ->
           Tenant.Get (db ++ [stored]) None tid' = Tenant.Get db None tid'))
  /\ ((exists r, r ∈ db /\ where_id id r = true) ->
      exists e, TenantOps.Create db None now assigned object = (db, (None, Some e))).
Proof.
  intros id stored.
  assert (where_id id stored = true) as Hstored.
  { apply where_id_true. unfold int_column, stored. by rewrite lookup_insert_eq. }
  split.
  - intros Hfresh. split; [|split; [|split; [|split]]].
    + unfold TenantOps.Create, GormRows.Create. rewrite primary_key_stamp.
      fold id. by rewrite (existsb_absent _ _ Hfresh).
    + unfold Tenant.Get, First. change (db ++ [stored]) with (db ++ stored :: []).
      by rewrite find_unique.
    + unfold stored, stamp.
      rewrite lookup_insert_ne by done. rewrite lookup_insert_ne by done.
      apply lookup_insert_eq.
    + unfold stored, stamp. rewrite lookup_insert_ne by done. apply lookup_insert_eq.
    + intros tid' Hne. unfold Tenant.Get, First.
      rewrite find_app_absent; [done|]. by apply (where_id_other tid' id).
  - intros (r & Hr & Hsel). eexists.
    unfold TenantOps.Create, GormRows.Create. rewrite primary_key_stamp.
    fold id. by rewrite (existsb_present _ _ r Hr Hsel).
Qed.

Lemma tenant_Create_then_Get_witness :
  Tenant.Get ([Sample.record 1 0 "acme"]
                ++ [<["id" := VInt 2]> (stamp 7 {["name" := VString "beta"]})]) None 2
  = (Some (<["id" := VInt 2]> (stamp 7 {["name" := VString "beta"]})), None).
Proof.
  destruct (proj1 (tenant_Create_then_Get [Sample.record 1 0 "acme"] 7 2
                     {["name" := VString "beta"]})) as (_ & HG & _).
  - intros r Hr. apply list_elem_of_singleton in Hr as ->. reflexivity.
  - exact HG.
Defined.

(** X11: the user store does not hide a missing record.  For an id no
    row has, [user.Get] returns gorm's record-not-found error where
    [tenant.Get] returns [(nil, nil)], while [user.Delete] returns no
    error and leaves the table; and after any [user.Delete] that the
    driver does not fail, [user.Get] of the id is record-not-found. *)
Theorem user_Get_Delete_missing (db : table) (uid : Z) :
  ((forall r, r ∈ db -> where_id uid r = false) ->
     UserOps.Get db None uid = (None, Some ErrRecordNotFound)
     /\ Tenant.Get db None uid = (None, None)
     /\ UserOps.Delete db None uid = (db, None))
  /\ (UserOps.Delete db None uid).2 = None
  /\ UserOps.Get (UserOps.Delete db None uid).1 None uid = (None, Some ErrRecordNotFound).
Proof.
  split; [|split; [done|]].
  - intros Hnone. unfold UserOps.Get, Tenant.Get, UserOps.Delete, First.
    rewrite (find_absent _ _ Hnone). cbn. by rewrite filter_unselected.
  - unfold UserOps.Get, UserOps.Delete, First. cbn.
    rewrite find_absent; [done|].
    intros r Hr. by apply list_elem_of_filter in Hr as [? _].
Qed.

Lemma user_Get_Delete_missing_witness :
  UserOps.Get [Sample.record 1 0 "ann"] None 2 = (None, Some ErrRecordNotFound)
  /\ Tenant.Get [Sample.record 1 0 "ann"] None 2 = (None, None)
  /\ UserOps.Delete [Sample.record 1 0 "ann"] None 2 = ([Sample.record 1 0 "ann"], None).
Proof.
  apply (proj1 (user_Get_Delete_missing [Sample.record 1 0 "ann"] 2)).
  intros r Hr. apply list_elem_of_singleton in Hr as ->. reflexivity.
Defined.

End StoreMoreClaims.

(** ** The roles of a user *)

Section UserRolesFacts.
Import UserRoles.

Lemma createRoles_result f uid rids i tx :
  match createRoles f uid rids i tx with
  | inl tx' => tx' = tx ++ map (mkUserRole uid) rids
  | inr e => exists j, (j < length rids)%nat /\ create_fault f (i + j) = Some e
  end.
Proof.
  revert i tx. induction rids as [|rid rids IH]; intros i tx; cbn.
  - by rewrite app_nil_r.
  - destruct (create_fault f i) as [e|] eqn:Hf.
    + exists 0%nat. split; [lia|]. by rewrite Nat.add_0_r.
    + specialize (IH (S i) (tx ++ [mkUserRole uid rid])).
      destruct (createRoles f uid rids (S i) (tx ++ [mkUserRole uid rid])) as [tx'|e].
      * by rewrite IH, <- app_assoc.
      * destruct IH as (j & Hj & Hf'). exists (S j). split; [lia|].
        by rewrite Nat.add_succ_r.
Qed.

Lemma createRoles_no_faults uid rids i tx :
  createRoles no_faults uid rids i tx = inl (tx ++ map (mkUserRole uid) rids).
Proof.
  pose proof (createRoles_result no_faults uid rids i tx) as Hr.
  destruct (createRoles no_faults uid rids i tx) as [tx'|e]; [by rewrite Hr|].
  by destruct Hr as (j & _ & Hj).
Qed.

Lemma SetUserRoles_no_faults db uid rids :
  uid <> 0 ->
  SetUserRoles db no_faults uid rids
  = (filter (fun rm => UserID rm <> uid) db ++ map (mkUserRole uid) rids, None).
Proof.
  intros Huid. unfold SetUserRoles, deleteByStruct. cbn.
  destruct (Z.eqb_spec uid 0); [done|].
  by rewrite createRoles_no_faults.
Qed.

Lemma filter_user_roles_new uid uid' rids :
  filter (fun rm => UserID rm = uid') (map (mkUserRole uid) rids)
  = if decide (uid = uid') then map (mkUserRole uid) rids else [].
Proof.
  induction rids as [|rid rids IH]; [by destruct (decide _)|].
  change (map (mkUserRole uid) (rid :: rids))
    with (mkUserRole uid rid :: map (mkUserRole uid) rids).
  destruct (decide (uid = uid')) as [->|Hne].
  - rewrite filter_cons_True by done. by rewrite IH.
  - rewrite filter_cons_False by done. by rewrite IH.
Qed.

Lemma filter_other_user (db : list UserRole) uid uid' :
  uid' <> uid ->
  filter (fun rm => UserID rm = uid') (filter (fun rm => UserID rm <> uid) db)
  = filter (fun rm => UserID rm = uid') db.
Proof.
  intros Hne. induction db as [|rm db IH]; [done|].
  destruct (decide (UserID rm = uid)) as [Heq|Hneq].
  - rewrite (filter_cons_False (fun rm => UserID rm <> uid)) by (intros ?; done).
    rewrite (filter_cons_False (fun rm => UserID rm = uid')) by congruence. done.
  - rewrite (filter_cons_True (fun rm => UserID rm <> uid)) by done.
    destruct (decide (UserID rm = uid')).
    + rewrite !(filter_cons_True (fun rm => UserID rm = uid')) by done. by rewrite IH.
    + rewrite !(filter_cons_False (fun rm => UserID rm = uid')) by done. done.
Qed.

Lemma filter_same_user (db : list UserRole) uid :
  filter (fun rm => UserID rm = uid) (filter (fun rm => UserID rm <> uid) db) = [].
Proof.
  induction db as [|rm db IH]; [done|].
  destruct (decide (UserID rm = uid)) as [Heq|Hneq].
  - by rewrite (filter_cons_False (fun rm => UserID rm <> uid)) by (intros ?; done).
  - rewrite (filter_cons_True (fun rm => UserID rm <> uid)) by done.
    by rewrite (filter_cons_False (fun rm => UserID rm = uid)) by done.
Qed.

Lemma filter_not_user_idem (db : list UserRole) uid :
  filter (fun rm => UserID rm <> uid) (filter (fun rm => UserID rm <> uid) db)
  = filter (fun rm => UserID rm <> uid) db.
Proof.
  induction db as [|rm db IH]; [done|].
  destruct (decide (UserID rm = uid)) as [Heq|Hneq].
  - by rewrite (filter_cons_False (fun rm => UserID rm <> uid)) by (intros ?; done).
  - rewrite !(filter_cons_True (fun rm => UserID rm <> uid)) by done. by rewrite IH.
Qed.

Lemma filter_not_user_new uid rids :
  filter (fun rm => UserID rm <> uid) (map (mkUserRole uid) rids) = [].
Proof.
  induction rids as [|rid rids IH]; [done|].
  change (map (mkUserRole uid) (rid :: rids))
    with (mkUserRole uid rid :: map (mkUserRole uid) rids).
  by rewrite filter_cons_False by (intros ?; done).
Qed.



(** X13: [SetUserRoles] then [GetRoleIDByUser].  After a call that the
    driver does not fail, for a user id other than 0, the role ids read
    back for the user are the ones given; the role ids of every other
    user are what they were; and setting the roles a second time
    replaces the first setting altogether. *)
Theorem SetUserRoles_then_GetRoleIDByUser (db : list UserRole) (uid : Z) (rids : list Z) :
  uid <> 0 ->
  let db' := (SetUserRoles db no_faults uid rids).1 in
  GetRoleIDByUser db' None uid = (Some {["role_ids" := rids]}, None)
  /\ (forall uid', uid' <> uid ->
        GetRoleIDByUser db' None uid' = GetRoleIDByUser db None uid')
  /\ (forall rids', SetUserRoles db' no_faults uid rids'
                    = SetUserRoles db no_faults uid rids').
Proof.
  intros Huid db'. subst db'. rewrite SetUserRoles_no_faults by done. cbn [fst].
  split; [|split].
  - unfold GetRoleIDByUser. rewrite filter_app, filter_same_user, filter_user_roles_new.
    destruct (decide (uid = uid)); [|done]. cbn.
    rewrite map_map. cbn. by rewrite map_id.
  - intros uid' Hne. unfold GetRoleIDByUser.
    rewrite filter_app, filter_other_user, filter_user_roles_new by done.
    destruct (decide (uid = uid')); [congruence|]. by rewrite app_nil_r.
  - intros rids'. rewrite !SetUserRoles_no_faults by done.
    by rewrite filter_app, filter_not_user_idem, filter_not_user_new, app_nil_r.
Qed.

Lemma SetUserRoles_then_GetRoleIDByUser_witness :
  GetRoleIDByUser (SetUserRoles [mkUserRole 1 10; mkUserRole 2 20] no_faults 1 [11; 12]).1
    None 1
  = (Some {["role_ids" := [11; 12]]}, None).
Proof.
  apply (SetUserRoles_then_GetRoleIDByUser [mkUserRole 1 10; mkUserRole 2 20] 1 [11; 12]).
  discriminate.
Defined.

(** X14: [DeleteRolesByUserID] removes the roles of the user and of no
    one else: when the driver does not fail it, the role ids read back
    for the user are empty whatever they were, those of every other user
    are unchanged, and a second call changes nothing. *)
Theorem DeleteRolesByUserID_clears (db : list UserRole) (uid : Z) :
  let db' := (DeleteRolesByUserID db None uid).1 in
  GetRoleIDByUser db' None uid = (Some {["role_ids" := []]}, None)
  /\ (forall uid', uid' <> uid ->
        GetRoleIDByUser db' None uid' = GetRoleIDByUser db None uid')
  /\ DeleteRolesByUserID db' None uid = (db', None)
  /\ (forall e, DeleteRolesByUserID db (Some e) uid = (db, Some e)).
Proof.
  cbn. unfold GetRoleIDByUser, DeleteRolesByUserID. split; [|split; [|split]].
  - by rewrite filter_same_user.
  - intros uid' Hne. by rewrite filter_other_user.
  - by rewrite filter_not_user_idem.
  - done.
Qed.

End UserRolesFacts.

(** ** More on discovery and kind resolution *)

Section GetterMoreFacts.
Import schema metav1 ResourcesStore.
Context `{Imports}.

Lemma ParseKind_hit rg kind g :
  ParseKind rg kind = (g, None) ->
  gvktogvrSet rg !! ToLower kind = Some g \/ gvktogvrSet rg !! Singular kind = Some g.
Proof.
  unfold ParseKind.
  destruct (gvktogvrSet rg !! ToLower kind) as [g1|]; [left; congruence|].
  destruct (gvktogvrSet rg !! Singular kind) as [g2|]; [right; congruence|done].
Qed.

Lemma index_entry_discovered rg lists k g :
  gvktogvrSet (GetGVRs rg (lists, None)).1 !! k = Some g ->
  (k, g) ∈ entries lists.
Proof.
  rewrite GetGVRs_ok. cbn. intros (l1 & l2 & -> & _)%insert_all_lookup_Some.
  apply elem_of_app. right. apply list_elem_of_here.
Qed.

Lemma insert_all_snoc es k g (m : gmap string GroupVersionResource) :
  insert_all (es ++ [(k, g)]) m = <[k := g]> (insert_all es m).
Proof. by rewrite insert_all_app. Qed.

Lemma insert_all_size_le es :
  (size (insert_all es ∅) <= length es)%nat.
Proof.
  induction es as [|[k g] es IH] using rev_ind; [done|].
  rewrite insert_all_snoc, map_size_insert, length_app. cbn.
  destruct (insert_all es ∅ !! k); cbn; lia.
Qed.

Lemma insert_all_size_NoDup es :
  NoDup (map fst es) -> size (insert_all es ∅) = length es.
Proof.
  induction es as [|[k g] es IH] using rev_ind; intros Hnd; [done|].
  rewrite map_app in Hnd. apply NoDup_app in Hnd as (Hes & Hk & _).
  rewrite insert_all_snoc, map_size_insert, length_app. cbn.
  rewrite insert_all_lookup_notin, lookup_empty.
  - cbn. rewrite IH by done. lia.
  - intros Hin. apply (Hk k Hin). apply list_elem_of_here.
Qed.

End GetterMoreFacts.

Section GetterMoreClaims.
Import schema metav1 ResourcesStore.
Context `{Imports}.

(** X1: [ParseKind] resolves to discovered resources only.  On the index
    of a pass that went through, whatever the getter held before, a
    name that resolves resolves to the descriptor (group, version,
    plural name) of a resource of a list of this pass that counts, whose
    lower-cased kind is the lower-cased name or its singular, and that
    descriptor is in the GVR list of the pass. *)
Theorem ParseKind_sound rg lists kind g :
  let rg' := (GetGVRs rg (lists, None)).1 in
  ParseKind rg' kind = (g, None) ->
  g ∈ gvrs rg'
  /\ exists rl gv r,
       rl ∈ lists /\ accepted rl = Some gv /\ r ∈ APIResources rl
       /\ (ToLower (Kind r) = ToLower kind \/ ToLower (Kind r) = Singular kind)
       /\ g = mkGVR (gvGroup gv) (gvVersion gv) (Name r).
Proof.
  intros rg' Hparse.
  assert (exists k, (k = ToLower kind \/ k = Singular kind) /\ (k, g) ∈ entries lists)
    as (k & Hk & Hin).
  { destruct (ParseKind_hit _ _ _ Hparse) as [Hhit|Hhit];
      apply index_entry_discovered in Hhit; eauto. }
  split.
  - subst rg'. rewrite GetGVRs_ok. cbn.
    by apply (list_elem_of_fmap_2 snd) in Hin.
  - apply entries_elem_inv in Hin as (rl & gv & r & ? & ? & ? & -> & ->).
    exists rl, gv, r. by repeat split.
Qed.

(** X2: the keys of the index are lower-cased names, so the retry of
    [ParseKind] under the singular is of use for lower-case singulars
    only.  With a [ToLower] that leaves lower-cased strings alone, every
    key of the index of a pass is its own lower-casing, and a name whose
    singular is not resolves if and only if the direct lookup hits. *)
Theorem index_keys_lower_case rg lists :
  (forall s, ToLower (ToLower s) = ToLower s) ->
  let rg' := (GetGVRs rg (lists, None)).1 in
  (forall k g, gvktogvrSet rg' !! k = Some g -> ToLower k = k)
  /\ (forall kind,
        ToLower (Singular kind) <> Singular kind ->
        ParseKind rg' kind
        = match gvktogvrSet rg' !! ToLower kind with
          | Some g => (g, None)
          | None => (zeroGVR, Some ErrUnknownKind)
          end).
Proof.
  intros Hidem rg'.
  assert (forall k g, gvktogvrSet rg' !! k = Some g -> ToLower k = k) as Hkeys.
  { intros k g Hk. apply index_entry_discovered, entries_elem_inv in Hk
      as (rl & gv & r & _ & _ & _ & -> & _). apply Hidem. }
  split; [exact Hkeys|].
  intros kind Hsing. unfold ParseKind.
  destruct (gvktogvrSet rg' !! ToLower kind) as [g|]; [done|].
  destruct (gvktogvrSet rg' !! Singular kind) as [g|] eqn:Hretry; [|done].
  by apply Hkeys in Hretry.
Qed.

(** X3: without collisions every resource resolves to itself.  The index
    never has more entries than the GVR list; when no two resources of
    the lists that count share a lower-cased kind, it has exactly as
    many, and the lower-cased kind of each of them is mapped to that
    resource's own descriptor. *)
Theorem distinct_kinds_own_descriptor rg lists :
  let rg' := (GetGVRs rg (lists, None)).1 in
  (size (gvktogvrSet rg') <= length (gvrs rg'))%nat
  /\ (NoDup (map fst (entries lists)) ->
      size (gvktogvrSet rg') = length (gvrs rg')
      /\ forall rl gv r,
           rl ∈ lists -> accepted rl = Some gv -> r ∈ APIResources rl ->
           gvktogvrSet rg' !! ToLower (Kind r)
           = Some (mkGVR (gvGroup gv) (gvVersion gv) (Name r))).
Proof.
  intros rg'. subst rg'. rewrite GetGVRs_ok. cbn. rewrite length_map.
  split; [apply insert_all_size_le|]. intros Hnd.
  split; [by apply insert_all_size_NoDup|].
  intros rl gv r Hrl Hacc Hr.
  pose proof (entries_elem lists rl gv r Hrl Hacc Hr) as Hin.
  apply list_elem_of_split in Hin as (l1 & l2 & Heq).
  rewrite Heq. apply insert_all_lookup_last.
  rewrite Heq, map_app in Hnd. apply NoDup_app in Hnd as (_ & _ & Hnd).
  cbn in Hnd. by apply NoDup_cons in Hnd as [? _].
Qed.

End GetterMoreClaims.

Section InformerClaims.
Import schema metav1 ResourcesStore Informers.
Context {Informer : Type} (ForResource : GroupVersionResource -> Informer * option error).

Lemma NewInformersForResource_fold (l : list GroupVersionResource)
    (m : gmap GroupVersionResource Informer) gvr :
  fold_left (NewInformersForResource_gvr ForResource) l m !! gvr
  = match ForResource gvr with
    | (informer, None) => if decide (gvr ∈ l) then Some informer else m !! gvr
    | (_, Some _) => m !! gvr
    end.
Proof.
  revert m. induction l as [|g l IH]; intros m; cbn.
  - destruct (ForResource gvr) as [i [e|]]; [done|].
    by rewrite decide_False by apply not_elem_of_nil.
  - rewrite IH. unfold NewInformersForResource_gvr.
    destruct (decide (g = gvr)) as [->|Hne].
    + destruct (ForResource gvr) as [i [e|]]; [done|].
      rewrite (decide_True (P := gvr ∈ gvr :: l)) by apply list_elem_of_here.
      destruct (decide (gvr ∈ l)); [done|]. apply lookup_insert_eq.
    + assert (gvr ∈ g :: l <-> gvr ∈ l) as Hiff.
      { rewrite elem_of_cons. split; [intros [Heq|?]; [by subst|done]|by right]. }
      destruct (ForResource gvr) as [i [e|]] eqn:Hgvr.
      * destruct (ForResource g) as [i' [e'|]]; [done|]. by rewrite lookup_insert_ne.
      * destruct (decide (gvr ∈ l)) as [Hin|Hnin].
        -- by rewrite decide_True by by apply Hiff.
        -- rewrite decide_False by by rewrite Hiff.
           destruct (ForResource g) as [i' [e'|]]; [done|]. by rewrite lookup_insert_ne.
Qed.

(** X4: [NewInformersForResource] never fails, and the map it stores
    holds an informer for exactly the descriptors of the GVR list for
    which the factory returned one: a descriptor the factory has no
    informer for is left out without stopping the others. *)
Theorem NewInformersForResource_lookup (rg : resourceGetter) :
  (NewInformersForResource ForResource rg).2 = None
  /\ forall gvr informer,
       (NewInformersForResource ForResource rg).1 !! gvr = Some informer
       <-> gvr ∈ gvrs rg /\ ForResource gvr = (informer, None).
Proof.
  split; [done|]. intros gvr informer. cbn.
  rewrite NewInformersForResource_fold, lookup_empty.
  destruct (ForResource gvr) as [i [e|]]; [split; [done|by intros [_ [=]]]|].
  destruct (decide (gvr ∈ gvrs rg)).
  - split; [by intros [= ->]|by intros [_ [= ->]]].
  - split; [done|by intros [? _]].
Qed.

End InformerClaims.

Section InformerResolution.
Import schema metav1 ResourcesStore Informers.
Context `{Imports} {Informer : Type}
        (ForResource : GroupVersionResource -> Informer * option error).

(** X5: discovery, informers and resolution fit together.  After a pass
    that went through and [NewInformersForResource] on its result, every
    name [ParseKind] resolves has an informer in the map, provided the
    factory has one for the descriptor. *)
Theorem resolved_kind_has_informer rg lists kind g informer :
  let rg' := (GetGVRs rg (lists, None)).1 in
  ParseKind rg' kind = (g, None) ->
  ForResource g = (informer, None) ->
  (NewInformersForResource ForResource rg').1 !! g = Some informer.
Proof.
  intros rg' Hparse Hfor.
  assert (g ∈ gvrs rg') as Hin.
  { destruct (ParseKind_hit _ _ _ Hparse) as [Hhit|Hhit];
      apply index_entry_discovered in Hhit;
      apply (list_elem_of_fmap_2 snd) in Hhit;
      subst rg'; by rewrite GetGVRs_ok. }
  cbn. rewrite NewInformersForResource_fold, Hfor.
  by rewrite decide_True.
Qed.

End InformerResolution.

Section GetterMoreRuns.
Import schema metav1 ResourcesStore Informers Sample SampleMore.

Lemma lower_ascii_idempotent c :
  Strings.lower_ascii (Strings.lower_ascii c) = Strings.lower_ascii c.
Proof. by destruct c as [[] [] [] [] [] [] [] []]. Qed.

Lemma ToLower_idempotent s : Strings.ToLower (Strings.ToLower s) = Strings.ToLower s.
Proof.
  induction s as [|c s IH]; [done|]. cbn. by rewrite lower_ascii_idempotent, IH.
Qed.

Lemma ParseKind_sound_witness :
  mkGVR "apps" "v1" "deployments"
    ∈ gvrs (GetGVRs newResourceGetter ([coreList; appsList], None)).1
  /\ exists rl gv r,
       rl ∈ [coreList; appsList] /\ accepted rl = Some gv /\ r ∈ APIResources rl
       /\ (ToLower (Kind r) = ToLower "deployments"
           \/ ToLower (Kind r) = Singular "deployments")
       /\ mkGVR "apps" "v1" "deployments" = mkGVR (gvGroup gv) (gvVersion gv) (Name r).
Proof.
  apply (ParseKind_sound newResourceGetter [coreList; appsList] "deployments"
           (mkGVR "apps" "v1" "deployments")).
  reflexivity.
Defined.

Lemma index_keys_lower_case_witness :
  ParseKind (GetGVRs newResourceGetter ([coreList; appsList], None)).1 "Deployments"
  = match gvktogvrSet (GetGVRs newResourceGetter ([coreList; appsList], None)).1
            !! ToLower "Deployments" with
    | Some g => (g, None)
    | None => (zeroGVR, Some ErrUnknownKind)
    end.
Proof.
  apply (proj2 (index_keys_lower_case (H := goImports) newResourceGetter
                  [coreList; appsList] ToLower_idempotent)).
  vm_compute. discriminate.
Defined.

Lemma distinct_kinds_own_descriptor_witness :
  size (gvktogvrSet (GetGVRs newResourceGetter ([coreList; appsList], None)).1)
  = length (gvrs (GetGVRs newResourceGetter ([coreList; appsList], None)).1).
Proof.
  apply (proj2 (distinct_kinds_own_descriptor newResourceGetter [coreList; appsList])).
  vm_compute. repeat (apply NoDup_cons; split;
    [rewrite ?not_elem_of_cons; repeat split; try discriminate; apply not_elem_of_nil|]).
  apply NoDup_nil_2.
Defined.

Lemma resolved_kind_has_informer_witness :
  (NewInformersForResource knownInformers
     (GetGVRs newResourceGetter ([coreList; appsList], None)).1).1
    !! mkGVR "" "v1" "pods"
  = Some "pods informer".
Proof.
  apply (resolved_kind_has_informer knownInformers newResourceGetter
           [coreList; appsList] "pods" (mkGVR "" "v1" "pods") "pods informer");
    reflexivity.
Defined.

End GetterMoreRuns.

(** ** The kubeconfig service with a client *)

Section CoreMoreClaims.
Import Core CoreTrace.





End CoreMoreClaims.

Section CoreEdgeClaims.
Import Core SampleMore.

(** X17: [Get], [Update] and [Delete] read the row through the pointer
    the dao returns without checking it.  When the dao answers with no
    row and no error, which is what [tenant.Get] does for a missing id,
    each of them panics right after the database read. *)
Theorem nil_row_panics {W : Type} (h : handler W) (w w1 : W) (trace : list callKind)
    (cs : Clientset) (cloud : string) (kid : Z) :
  h _ (DaoGet kid) w = ((None, None), w1) ->
  let c := NewKubeConfigs (Some cs) cloud in
  run h (Get c kid) w trace
  = (Panicked "nil pointer dereference", w1, trace ++ [Database])
  /\ run h (Update c kid) w trace
     = (Panicked "nil pointer dereference", w1, trace ++ [Database])
  /\ run h (Delete c kid) w trace
     = (Panicked "nil pointer dereference", w1, trace ++ [Database]).
Proof. intros Hget. cbn. by rewrite Hget. Qed.

Lemma nil_row_panics_witness :
  run absentRow (Get (NewKubeConfigs (Some "c1") "c1") 3) tt []
  = (Panicked "nil pointer dereference", tt, [] ++ [Database])
  /\ run absentRow (Update (NewKubeConfigs (Some "c1") "c1") 3) tt []
     = (Panicked "nil pointer dereference", tt, [] ++ [Database])
  /\ run absentRow (Delete (NewKubeConfigs (Some "c1") "c1") 3) tt []
     = (Panicked "nil pointer dereference", tt, [] ++ [Database]).
Proof. apply (nil_row_panics absentRow tt tt [] "c1" "c1" 3). reflexivity. Defined.

(** X18: [Update] writes the new token into the first context and the
    first user of the stored document without checking that there is
    one.  When the document read back has no context or no user, the
    run panics on the index, after the token has been requested from
    the cluster and before anything is written to the database. *)
Theorem Update_panics_without_user {W : Type} (h : handler W) (w w1 w2 w3 w4 : W)
    (cs : Clientset) (cloud : string) (kid : Z) (obj : ModelKubeConfig)
    (configByte : string) (config : kubeconfig) (token : TokenStatus) :
  h _ (DaoGet kid) w = ((Some obj, None), w1) ->
  h _ (CipherDecrypt (mConfig obj)) w1 = ((configByte, None), w2) ->
  h _ (YamlUnmarshal configByte newConfig) w2 = ((config, None), w3) ->
  h _ (ServiceAccountsCreateToken namespace (mServiceAccount obj) expirationSeconds) w3
  = ((token, None), w4) ->
  Contexts config = [] \/ Users config = [] ->
  run h (Update (NewKubeConfigs (Some cs) cloud) kid) w []
  = (Panicked "index out of range", w4, [Database; Local; Local; Remote]).
Proof.
  intros Hget Hdec Hyaml Htok Hempty. cbn.
  rewrite Hget. cbn. rewrite Hdec. cbn. rewrite Hyaml. cbn. rewrite Htok. cbn.
  unfold setSA. destruct Hempty as [-> | ->]; [done|].
  by destruct (Contexts config).
Qed.

Lemma Update_panics_without_user_witness :
  run userlessDocument (Update (NewKubeConfigs (Some "c1") "c1") 3) tt []
  = (Panicked "index out of range", tt, [Database; Local; Local; Remote]).
Proof.
  apply (Update_panics_without_user userlessDocument tt tt tt tt tt "c1" "c1" 3
           (mkModelKubeConfig 3 0 "c1" "sa" "admin" "" "") ""
           (mkKubeconfig "v1" "Config" "kubernetes" [] (Contexts newConfig) [])
           (mkTokenStatus "" "")); try reflexivity.
  by right.
Defined.


Lemma List_loop_decrypts {W : Type} (h : handler W) (dec : string -> string * option error)
    (objs : list ModelKubeConfig) (acc : list KubeConfig) (w : W) (trace : list callKind) :
  (forall text w, h _ (CipherDecrypt text) w = (dec text, w)) ->
  (forall obj, obj ∈ objs -> (dec (mConfig obj)).2 = None) ->
  run h (List_loop objs acc) w trace
  = (Returned (acc ++ map (fun obj =>
                 mkKubeConfig (mCloudName obj) (mServiceAccount obj) (mClusterRole obj)
                              (dec (mConfig obj)).1 (mExpirationTimestamp obj)) objs,
               None),
     w, trace ++ repeat Local (length objs)).
Proof.
  intros Hdec. revert acc trace.
  induction objs as [|obj objs IH]; intros acc trace Hall; cbn.
  - by rewrite !app_nil_r.
  - rewrite Hdec. pose proof (Hall obj (list_elem_of_here _ _)) as Hobj.
    destruct (dec (mConfig obj)) as [configByte [e|]]; [done|]. cbn.
    rewrite IH by (intros o Ho; apply Hall; by apply list_elem_of_further).
    by rewrite <- !app_assoc.
Qed.

Lemma List_loop_fails {W : Type} (h : handler W) (dec : string -> string * option error)
    (l1 l2 : list ModelKubeConfig) (obj : ModelKubeConfig) (e : error)
    (acc : list KubeConfig) (w : W) (trace : list callKind) :
  (forall text w, h _ (CipherDecrypt text) w = (dec text, w)) ->
  (forall o, o ∈ l1 -> (dec (mConfig o)).2 = None) ->
  (dec (mConfig obj)).2 = Some e ->
  (run h (List_loop (l1 ++ obj :: l2) acc) w trace).1.1 = Returned ([], Some e).
Proof.
  intros Hdec. revert acc trace.
  induction l1 as [|o l1 IH]; intros acc trace Hall Hobj; cbn.
  - rewrite Hdec. destruct (dec (mConfig obj)) as [configByte [e'|]]; [|done].
    cbn in *. injection Hobj as ->. by destruct (h _ _ w).
  - rewrite Hdec. pose proof (Hall o (list_elem_of_here _ _)) as Ho.
    destruct (dec (mConfig o)) as [configByte [e'|]]; [done|]. cbn.
    apply IH; [|done]. intros o' Ho'. apply Hall. by apply list_elem_of_further.
Qed.

(** X20: [List] is all or nothing.  With a dao that returns the rows and
    a cipher whose answer depends on the text only, [List] returns one
    record per row, in order, each with its config decrypted, when every
    config decrypts; and when one does not, it returns the error of the
    first such row and no record at all, not even those already
    decrypted. *)
Theorem List_all_or_nothing {W : Type} (h : handler W)
    (dec : string -> string * option error) (w w1 : W) (cs : Clientset)
    (cloud cloudName : string) (objs : list ModelKubeConfig) :
  (forall text w, h _ (CipherDecrypt text) w = (dec text, w)) ->
  h _ (DaoList cloudName) w = ((objs, None), w1) ->
  let out := (run h (List (NewKubeConfigs (Some cs) cloud) cloudName) w []).1.1 in
  ((forall obj, obj ∈ objs -> (dec (mConfig obj)).2 = None) ->
     out = Returned
             (map (fun obj =>
                     mkKubeConfig (mCloudName obj) (mServiceAccount obj) (mClusterRole obj)
                                  (dec (mConfig obj)).1 (mExpirationTimestamp obj)) objs,
              None))
  /\ (forall l1 obj l2 e,
        objs = l1 ++ obj :: l2 ->
        (forall o, o ∈ l1 -> (dec (mConfig o)).2 = None) ->
        (dec (mConfig obj)).2 = Some e ->
        out = Returned ([], Some e)).
Proof.
  intros Hdec Hlist out. subst out. cbn. rewrite Hlist. cbn. split.
  - intros Hall. by rewrite (List_loop_decrypts h dec).
  - intros l1 obj l2 e -> Hl1 Hobj. by apply (List_loop_fails h dec).
Qed.

Lemma List_all_or_nothing_witness :
  (run twoRows (List (NewKubeConfigs (Some "c1") "c1") "c1") tt []).1.1
  = Returned
      (map (fun obj =>
              mkKubeConfig (mCloudName obj) (mServiceAccount obj) (mClusterRole obj)
                           (decryptReverse (mConfig obj)).1 (mExpirationTimestamp obj))
         [mkModelKubeConfig 1 0 "c1" "sa1" "admin" "abc" "";
          mkModelKubeConfig 2 0 "c1" "sa2" "view" "xyz" ""],
       None).
Proof.
  apply (proj1 (List_all_or_nothing twoRows decryptReverse tt tt "c1" "c1" "c1"
                  [mkModelKubeConfig 1 0 "c1" "sa1" "admin" "abc" "";
                   mkModelKubeConfig 2 0 "c1" "sa2" "view" "xyz" ""]
                  (fun _ _ => eq_refl) eq_refl)).
  intros obj Hobj. apply elem_of_cons in Hobj as [->|Hobj]; [reflexivity|].
  apply list_elem_of_singleton in Hobj as ->. reflexivity.
Defined.

End CoreEdgeClaims.

(** ** The configuration of a plan *)

Section PlanClaims.
Import Plan.
Context {KubernetesSpec NetworkSpec RuntimeSpec : Type}
        (cd : codecs KubernetesSpec NetworkSpec RuntimeSpec)
        (existsError : Z -> error).

(** X21: [makePlanConfig] then [modelConfig2Type].  With codecs that
    unmarshal what they marshalled, the configuration made from a
    request converts back to a plan configuration with the plan id and
    the three specifications of the request; its name, region and
    description are empty and its id, version and times zero, since
    [makePlanConfig] copies none of them. *)
Theorem makePlanConfig_then_modelConfig2Type
    (req : CreatePlanConfigRequest KubernetesSpec NetworkSpec RuntimeSpec) (cfg : Config) :
  (forall x b, ksMarshal cd x = (b, None) -> ksUnmarshal cd b = (x, None)) ->
  (forall x b, nsMarshal cd x = (b, None) -> nsUnmarshal cd b = (x, None)) ->
  (forall x b, rsMarshal cd x = (b, None) -> rsUnmarshal cd b = (x, None)) ->
  makePlanConfig cd req = (Some cfg, None) ->
  modelConfig2Type cd cfg
  = (Some (mkPlanConfig 0 0 0 0 (rPlanId req) "" "" ""
             (rKubernetes req) (rNetwork req) (rRuntime req)), None).
Proof.
  intros Hks Hns Hrs. unfold makePlanConfig, modelConfig2Type.
  destruct (ksMarshal cd (rKubernetes req)) as [kb [e|]] eqn:Hk; [done|].
  destruct (nsMarshal cd (rNetwork req)) as [nb [e|]] eqn:Hn; [done|].
  destruct (rsMarshal cd (rRuntime req)) as [rb [e|]] eqn:Hr; [done|].
  intros [= <-]. cbn.
  by rewrite (Hks _ _ Hk), (Hns _ _ Hn), (Hrs _ _ Hr).
Qed.

(** X22: what stops [CreateConfig] and what it writes.  When the lookup
    of the plan's configuration succeeds, the already-exists error is
    returned and nothing is written.  When the lookup fails, whatever
    the error, a database failure as much as record-not-found, the
    configuration is marshalled and written; the row written carries the
    plan id of the request, not the plan id of the call, and no name;
    the error of the write, if any, is returned and logged. *)
Theorem CreateConfig_lookup {S : Type} (d : dao S) (pid : Z)
    (req : CreatePlanConfigRequest KubernetesSpec NetworkSpec RuntimeSpec) (s s1 : S)
    (found : option Config) :
  (GetConfigByPlan d pid s = ((found, None), s1) ->
     CreateConfig cd existsError d pid req s = (Some (existsError pid), s1, []))
  /\ (forall e cfg,
        GetConfigByPlan d pid s = ((found, Some e), s1) ->
        makePlanConfig cd req = (Some cfg, None) ->
        cPlanId cfg = rPlanId req /\ cName cfg = ""
        /\ (CreateConfig cd existsError d pid req s).1.2 = (CreatConfig d cfg s1).2
        /\ (CreateConfig cd existsError d pid req s).1.1 = (CreatConfig d cfg s1).1.2
        /\ ((CreateConfig cd existsError d pid req s).2 = []
            <-> (CreatConfig d cfg s1).1.2 = None)).
Proof.
  split.
  - intros Hget. unfold CreateConfig, preCreateConfig. by rewrite Hget.
  - intros e cfg Hget Hmake. unfold CreateConfig, preCreateConfig.
    rewrite Hget, Hmake.
    assert (cPlanId cfg = rPlanId req /\ cName cfg = "") as [HP HN].
    { unfold makePlanConfig in Hmake.
      destruct (ksMarshal cd _) as [? [?|]]; [done|].
      destruct (nsMarshal cd _) as [? [?|]]; [done|].
      destruct (rsMarshal cd _) as [? [?|]]; [done|].
      by injection Hmake as <-. }
    split; [done|]. split; [done|].
    destruct (CreatConfig d cfg s1) as [[o [e'|]] s2]; cbn; by repeat split.
Qed.

End PlanClaims.

Section PlanRuns.
Import Plan SampleMore.

Lemma makePlanConfig_then_modelConfig2Type_witness :
  modelConfig2Type plainCodecs (mkConfig 0 0 0 0 7 "" "" "" "k8s" "net" "containerd")
  = (Some (mkPlanConfig 0 0 0 0 7 "" "" "" "k8s" "net" "containerd"), None).
Proof.
  apply (makePlanConfig_then_modelConfig2Type plainCodecs
           (mkRequest 7 "demo" "k8s" "net" "containerd"));
    try (by intros x b [= <-]).
  reflexivity.
Defined.

Lemma CreateConfig_lookup_witness :
  CreateConfig plainCodecs (fun _ => ErrOther "exists") listDao 7
    (mkRequest 7 "demo" "k8s" "net" "containerd")
    [mkConfig 1 0 0 0 7 "" "" "" "k8s" "net" "containerd"]
  = (Some (ErrOther "exists"),
     [mkConfig 1 0 0 0 7 "" "" "" "k8s" "net" "containerd"], [])
  /\ (CreateConfig plainCodecs (fun _ => ErrOther "exists") listDao 3
        (mkRequest 7 "demo" "k8s" "net" "containerd") []).1.2
     = (CreatConfig listDao (mkConfig 0 0 0 0 7 "" "" "" "k8s" "net" "containerd") []).2.
Proof.
  split.
  - apply (proj1 (CreateConfig_lookup plainCodecs (fun _ => ErrOther "exists") listDao 7
                    (mkRequest 7 "demo" "k8s" "net" "containerd")
                    [mkConfig 1 0 0 0 7 "" "" "" "k8s" "net" "containerd"]
                    [mkConfig 1 0 0 0 7 "" "" "" "k8s" "net" "containerd"]
                    (Some (mkConfig 1 0 0 0 7 "" "" "" "k8s" "net" "containerd")))).
    reflexivity.
  - destruct (proj2 (CreateConfig_lookup plainCodecs (fun _ => ErrOther "exists") listDao 3
                       (mkRequest 7 "demo" "k8s" "net" "containerd") [] [] None)
                ErrRecordNotFound
                (mkConfig 0 0 0 0 7 "" "" "" "k8s" "net" "containerd")
                eq_refl eq_refl) as (_ & _ & Hs & _).
    exact Hs.
Defined.

End PlanRuns.
